(** * YT-AI-Video-Summarizer: a shallow embedding of [app.py]

    The development follows the source file top to bottom:
    - Python strings and the few [str] methods the program calls;
    - JSON values, exceptions and the interpreter parameters;
    - [get_video_id] (the regular-expression search);
    - [get_transcript_with_ytdlp] (caption selection and flattening);
    - [summarize_transcript] and the [/ask] handler.

    Conventions.  A Python [str] is a [string]; each character stands for the
    code point of the same number, so the model covers the text whose code
    points are below 256.  Python integers are [Z].  A [dict] is an association
    list in insertion order.  [print] calls are not modelled.  JSON numbers
    with a fraction or an exponent (Python floats) are outside the model. *)

From Stdlib Require Import String Ascii List ZArith NArith Lia Bool.
Import ListNotations.
Open Scope string_scope.
Set Warnings "-register-all,-abstract-large-number".


(** ** Python strings *)

Definition code (c : ascii) : N := N_of_ascii c.

Definition between (lo hi : N) (c : ascii) : bool :=
  ((lo <=? code c) && (code c <=? hi))%N.

Definition is_code (n : N) (c : ascii) : bool := (code c =? n)%N.

Definition nonempty (s : string) : bool :=
  match s with EmptyString => false | String _ _ => true end.

Fixpoint take (n : nat) (s : string) : string :=
  match n, s with
  | S k, String c s' => String c (take k s')
  | _, _ => EmptyString
  end.

Fixpoint drop (n : nat) (s : string) : string :=
  match n, s with
  | S k, String _ s' => drop k s'
  | _, _ => s
  end.

Fixpoint all_chars (p : ascii -> bool) (s : string) : bool :=
  match s with
  | EmptyString => true
  | String c s' => p c && all_chars p s'
  end.

(** [s[:n]] for a literal [n >= 0]. *)
Definition slice_to (n : nat) (s : string) : string := take n s.

(** [c.isspace()] on the code points below 256. *)
Definition isspace (c : ascii) : bool :=
  between 9 13 c || between 28 32 c || is_code 133 c || is_code 160 c.

Fixpoint lstrip (s : string) : string :=
  match s with
  | EmptyString => EmptyString
  | String c s' => if isspace c then lstrip s' else s
  end.

Fixpoint rstrip (s : string) : string :=
  match s with
  | EmptyString => EmptyString
  | String c s' =>
      let r := rstrip s' in
      if isspace c && negb (nonempty r) then EmptyString else String c r
  end.

(** [s.strip()] *)
Definition strip (s : string) : string := rstrip (lstrip s).

(** [sep.join(parts)] *)
Definition join (sep : string) (parts : list string) : string :=
  String.concat sep parts.

Fixpoint starts_with (p s : string) : bool :=
  match p, s with
  | EmptyString, _ => true
  | String a p', String b s' => Ascii.eqb a b && starts_with p' s'
  | String _ _, EmptyString => false
  end.

(** [sub in s] for two strings. *)
Fixpoint contains (sub s : string) : bool :=
  starts_with sub s ||
  match s with
  | EmptyString => false
  | String _ s' => contains sub s'
  end.

Definition newline : string := String "010"%char EmptyString.

(** ** JSON values, as [json.loads] and [request.get_json] deliver them *)

Inductive json : Type :=
| JNull
| JBool (b : bool)
| JInt (z : Z)
| JStr (s : string)
| JArr (l : list json)
| JObj (kv : list (string * json)).

Fixpoint lookup {A : Type} (k : string) (kv : list (string * A)) : option A :=
  match kv with
  | [] => None
  | (k', v) :: rest => if String.eqb k k' then Some v else lookup k rest
  end.

Definition has_key {A : Type} (k : string) (kv : list (string * A)) : bool :=
  match lookup k kv with Some _ => true | None => false end.

(** ** Exceptions *)

(** Exceptions the interpreter raises on the program's behalf. *)
Inductive builtin : Type :=
| IndexError                      (* [xs[0]] on an empty list *)
| KeyError (k : string)           (* [d[k]] on a missing key *)
| IntTypeError (v : json)         (* [int(v)], [v] not a number or a string *)
| IntValueError (s : string)      (* [int(s)], [s] not a decimal literal *)
| NotIterable (v : json)          (* [k in v], [v] not a container *)
| BadSubscript (v : json)         (* [v[k]] or [v[:n]] not supported by [v] *)
| AttributeError (v : json)       (* [v.get], [v] not a dict *).

Inductive exn : Type :=
| Exception (msg : string)        (* [raise Exception(msg)] in app.py *)
| Collaborator (msg : string)     (* raised inside yt-dlp, Flask or the Mistral client *)
| Builtin (b : builtin).

(** What the program does not fix itself: the interpreter's wording of its
    own exceptions, [str()] of a value that is not a string, and the limit
    on the number of digits [int()] accepts (0: no limit). *)
Class Runtime : Type := {
  builtin_text : builtin -> string;
  format_value : json -> string;
  int_max_str_digits : nat
}.

(** [str(e)] *)
Definition str `{Runtime} (e : exn) : string :=
  match e with
  | Exception msg => msg
  | Collaborator msg => msg
  | Builtin b => builtin_text b
  end.

Inductive result (A : Type) : Type :=
| Ok (a : A)
| Error (e : exn).
Arguments Ok {A} a.
Arguments Error {A} e.

Definition bind {A B : Type} (r : result A) (k : A -> result B) : result B :=
  match r with
  | Ok a => k a
  | Error e => Error e
  end.

Notation "x <- r ;; k" := (bind r (fun x => k))
  (at level 61, r at next level, right associativity).

(** ** [int()] *)

Definition is_digit (c : ascii) : bool := between 48 57 c.

Definition digit_value (c : ascii) : Z := Z.of_N (code c) - 48.

(** White space [int()] skips around a literal. *)
Definition int_space (c : ascii) : bool :=
  between 9 13 c || is_code 32 c || is_code 133 c || is_code 160 c.

Fixpoint skip_int_space (s : string) : string :=
  match s with
  | EmptyString => EmptyString
  | String c s' => if int_space c then skip_int_space s' else s
  end.

(** Digits with single underscores between them: value so far, number of
    digits so far, and what follows the run. *)
Fixpoint digit_run (acc : Z) (count : nat) (s : string) : Z * nat * string :=
  match s with
  | EmptyString => (acc, count, s)
  | String c s' =>
      if is_digit c then digit_run (acc * 10 + digit_value c) (S count) s'
      else if is_code 95 c then
        match s' with
        | String d s'' =>
            if is_digit d
            then digit_run (acc * 10 + digit_value d) (S count) s''
            else (acc, count, s)
        | EmptyString => (acc, count, s)
        end
      else (acc, count, s)
  end.

Definition unsigned_literal `{Runtime} (s : string) : option Z :=
  match s with
  | String c _ =>
      if is_digit c then
        match digit_run 0 0 s with
        | (v, count, rest) =>
            if all_chars int_space rest &&
               ((int_max_str_digits =? 0) || (count <=? int_max_str_digits))%nat
            then Some v else None
        end
      else None
  | EmptyString => None
  end.

(** [int(s)] for a string, base 10. *)
Definition int_of_string `{Runtime} (s : string) : result Z :=
  let literal :=
    match skip_int_space s with
    | String c s' =>
        if is_code 43 c then unsigned_literal s'
        else if is_code 45 c then option_map Z.opp (unsigned_literal s')
        else unsigned_literal (String c s')
    | EmptyString => None
    end in
  match literal with
  | Some z => Ok z
  | None => Error (Builtin (IntValueError s))
  end.

(** [int(v)] *)
Definition py_int `{Runtime} (v : json) : result Z :=
  match v with
  | JInt z => Ok z
  | JBool b => Ok (if b then 1%Z else 0%Z)
  | JStr s => int_of_string s
  | JNull | JArr _ | JObj _ => Error (Builtin (IntTypeError v))
  end.

(** ** [get_video_id]

    [re.search(r'(?<=v=)[\w-]+|(?<=youtu\.be\/)[\w-]+', url)]: the search
    tries the start positions 0, 1, ..., len(url) in this order; at a
    position it tries the two alternatives in this order; an alternative
    looks behind the position for its literal and then takes the longest
    run of characters of the class, which has to be non-empty. *)

(** [\w] on the code points below 256: letters, digits of every kind and
    the underscore. *)
Definition word_char (c : ascii) : bool :=
  between 48 57 c || between 65 90 c || is_code 95 c || between 97 122 c ||
  is_code 170 c || between 178 179 c || is_code 181 c || between 185 186 c ||
  between 188 190 c || between 192 214 c || between 216 246 c ||
  between 248 255 c.

(** [[\w-]] *)
Definition id_char (c : ascii) : bool := word_char c || is_code 45 c.

(** The longest prefix of [s] made of characters of the class. *)
Fixpoint class_run (s : string) : string :=
  match s with
  | EmptyString => EmptyString
  | String c s' => if id_char c then String c (class_run s') else EmptyString
  end.

(** [(?<=lit)] at position [p] of [s], a position of the string
    ([p <= len(s)]): the [len(lit)] characters that end at [p] are [lit]. *)
Definition lookbehind (lit s : string) (p : nat) : bool :=
  (String.length lit <=? p)%nat && (p <=? String.length s)%nat &&
  String.eqb (take (String.length lit) (drop (p - String.length lit) s)) lit.

(** [(?<=lit)[\w-]+] at position [p]. *)
Definition alternative (lit s : string) (p : nat) : option string :=
  if lookbehind lit s p then
    match class_run (drop p s) with
    | EmptyString => None
    | m => Some m
    end
  else None.

Definition match_at (s : string) (p : nat) : option string :=
  match alternative "v=" s p with
  | Some m => Some m
  | None => alternative "youtu.be/" s p
  end.

(** The first of [count] consecutive positions, from [start], with a match. *)
Fixpoint first_match (f : nat -> option string) (start count : nat)
  : option string :=
  match count with
  | O => None
  | S k =>
      match f start with
      | Some m => Some m
      | None => first_match f (S start) k
      end
  end.

Definition re_search (s : string) : option string :=
  first_match (match_at s) 0 (S (String.length s)).

Definition get_video_id (url : string) : option string :=
  if negb (nonempty url) then None else re_search url.

(** ** [get_transcript_with_ytdlp] *)

(** A track descriptor; [url = None]: the descriptor has no ['url'] key. *)
Record track : Type := { url : option string }.

(** A caption map: language code to track descriptors, in the order
    [keys()] lists them. *)
Definition captions : Type := list (string * list track).

(** What [extract_info] returns, as far as the program reads it; [None]:
    the key is absent (or holds [None]). *)
Record video_info : Type := {
  subtitles : option captions;
  automatic_captions : option captions
}.

(** The caption payload after [json.loads], at the shape the program reads:
    an optional ['events'] list, each event with an optional ['segs'] list,
    each segment with an optional ['utf8'] string. *)
Record seg : Type := { utf8 : option string }.
Record event : Type := { segs : option (list seg) }.
Record caption_doc : Type := { events : option (list event) }.

(** The collaborator: [extract_info(url, download=False)], and
    [urlopen(url).read().decode('utf-8')] followed by [json.loads]. *)
Record ytdlp : Type := {
  extract_info : string -> result video_info;
  open_captions : string -> result caption_doc
}.

(** ['k' in info and info['k']] *)
Definition present_and_truthy (c : option captions) : bool :=
  match c with
  | Some (_ :: _) => true
  | _ => false
  end.

Definition getitem {A : Type} (k : string) (d : list (string * A)) : result A :=
  match lookup k d with
  | Some v => Ok v
  | None => Error (Builtin (KeyError k))
  end.

(** [tracks[0]['url']] *)
Definition first_track_url (tracks : list track) : result (option string) :=
  match tracks with
  | [] => Error (Builtin IndexError)
  | t :: _ =>
      match url t with
      | Some u => Ok (Some u)
      | None => Error (Builtin (KeyError "url"))
      end
  end.

(** Lines 68-86: the value of [subtitle_url], [None] for Python's [None]. *)
Definition choose_subtitle_url (info : video_info) : result (option string) :=
  if present_and_truthy (subtitles info) then
    let subs := match subtitles info with Some d => d | None => [] end in
    if has_key "en" subs then
      tracks <- getitem "en" subs ;; first_track_url tracks
    else
      match map fst subs with
      | first_lang :: _ =>
          tracks <- getitem first_lang subs ;; first_track_url tracks
      | [] => Ok None
      end
  else if present_and_truthy (automatic_captions info) then
    let autos := match automatic_captions info with Some d => d | None => [] end in
    if has_key "en" autos then
      tracks <- getitem "en" autos ;; first_track_url tracks
    else Ok None
  else Error (Exception "No captions available for this video").

(** Lines 88-89 *)
Definition require_subtitle_url (u : option string) : result string :=
  match u with
  | Some u' =>
      if nonempty u' then Ok u'
      else Error (Exception "Could not find subtitle URL")
  | None => Error (Exception "Could not find subtitle URL")
  end.

(** Lines 102-104: the inner loop, appending to [transcript_parts]. *)
Definition append_segs (parts : list string) (ss : list seg) : list string :=
  fold_left
    (fun acc sg => match utf8 sg with Some t => (acc ++ [t])%list | None => acc end)
    ss parts.

(** Lines 99-104 *)
Definition transcript_parts (subs : caption_doc) : list string :=
  fold_left
    (fun acc ev => match segs ev with Some ss => append_segs acc ss | None => acc end)
    (match events subs with Some es => es | None => [] end)
    [].

(** Line 106 *)
Definition transcript_text (subs : caption_doc) : string :=
  join " " (transcript_parts subs).

(** Lines 108-111 *)
Definition checked_transcript (subs : caption_doc) : result string :=
  if negb (nonempty (strip (transcript_text subs)))
  then Error (Exception "Transcript extracted but empty")
  else Ok (transcript_text subs).

Section Transcript.
Context `{Runtime}.
(** The module-level [yt_dlp]: [None] when the import failed
    ([YT_DLP_AVAILABLE] is then [False]). *)
Variable yt_dlp : option ytdlp.

(** The body of the [try] block. *)
Definition fetch_transcript (ydl : ytdlp) (video_id : string) : result string :=
  info <- extract_info ydl ("https://www.youtube.com/watch?v=" ++ video_id) ;;
  u <- choose_subtitle_url info ;;
  subtitle_url <- require_subtitle_url u ;;
  subs <- open_captions ydl subtitle_url ;;
  checked_transcript subs.

Definition get_transcript_with_ytdlp (video_id : string) : result string :=
  match yt_dlp with
  | None => Error (Exception "yt-dlp library not available")
  | Some ydl =>
      match fetch_transcript ydl video_id with
      | Ok text => Ok text
      | Error e =>
          Error (Exception ("Failed to fetch transcript with yt-dlp: " ++ str e))
      end
  end.
End Transcript.

(** ** The language-model client and the prompts *)

(** [chat.complete(model=..., messages=[{"role": "user", "content": c}])]:
    the [message.content] of each of [response.choices], in order. *)
Record mistral : Type := {
  chat_complete : string -> string -> result (list string)
}.

Definition MODEL_NAME : string := "open-mistral-7b".

(** [response.choices[0].message.content] *)
Definition first_choice (choices : list string) : result string :=
  match choices with
  | [] => Error (Builtin IndexError)
  | c :: _ => Ok c
  end.

Definition SUMMARY_INSTRUCTIONS : string :=
  "Summarize this video transcript in 3 paragraphs. Focus on the main topic and conclusion. List out the main points in list form which must be bullet list form. Give significance to main points. STAY ONLY ACCORDING TO THE TRANSCRIPT GIVEN AND NOTHING ELSE."
  ++ newline ++ newline.

(** Lines 121-124 *)
Definition summary_prompt (transcript : string) : string :=
  SUMMARY_INSTRUCTIONS ++ slice_to 10000 transcript.

Definition ANSWER_INSTRUCTIONS : string :=
  "Answer the question of the user based off the summary. Use the summary as the context. List out the main points in list form which must be bullet list form. The answer MUST STAY ONLY ACCORDING TO THE QUESTION GIVEN AND NOTHING ELSE. If the user asks questions outside the context provided, response by saying: I cannot answer this question as it is out of context. "
  ++ newline ++ newline.

(** Lines 228-231, once the two slices are formatted. *)
Definition answer_prompt_text (summary_part question_part : string) : string :=
  ANSWER_INSTRUCTIONS ++ "Summary: " ++ summary_part ++ newline
  ++ "Question: " ++ question_part.

(** Lines 228-231 for a summary and a question that are strings. *)
Definition answer_prompt (summary question : string) : string :=
  answer_prompt_text (slice_to 2500 summary) (slice_to 500 question).

(** ** The [/ask] handler *)

(** The Flask request, as far as the handler reads it. *)
Record request : Type := {
  is_json : bool;
  get_json : result json
}.

(** [(jsonify(body), status)] *)
Record response : Type := {
  body : list (string * json);
  status : nat
}.

Definition required_keys : list string := ["question"; "prompt_count"; "summary"].

(** [k not in data] *)
Definition not_in (k : string) (data : json) : result bool :=
  match data with
  | JObj kv => Ok (negb (has_key k kv))
  | JArr l =>
      Ok (negb (existsb
                  (fun v => match v with JStr s => String.eqb s k | _ => false end)
                  l))
  | JStr s => Ok (negb (contains k s))
  | JNull | JBool _ | JInt _ => Error (Builtin (NotIterable data))
  end.

(** Lines 205-207: the key the loop reports, if it reports one. *)
Fixpoint first_missing (keys : list string) (data : json) : result (option string) :=
  match keys with
  | [] => Ok None
  | k :: rest =>
      missing <- not_in k data ;;
      if (missing : bool) then Ok (Some k) else first_missing rest data
  end.

(** [data[k]] for a string [k] *)
Definition subscript (data : json) (k : string) : result json :=
  match data with
  | JObj kv => getitem k kv
  | _ => Error (Builtin (BadSubscript data))
  end.

(** [data.get(k, default)] *)
Definition get_default (data : json) (k : string) (default : json) : result json :=
  match data with
  | JObj kv => Ok (match lookup k kv with Some v => v | None => default end)
  | _ => Error (Builtin (AttributeError data))
  end.

(** [v[:n]] *)
Definition slice_value (n : nat) (v : json) : result json :=
  match v with
  | JStr s => Ok (JStr (slice_to n s))
  | JArr l => Ok (JArr (firstn n l))
  | _ => Error (Builtin (BadSubscript v))
  end.

Section Services.
Context `{Runtime}.
(** The module-level [mistral_client]: [None] without an API key or when
    the constructor failed. *)
Variable mistral_client : option mistral.

(** [f"{v}"] *)
Definition format (v : json) : string :=
  match v with
  | JStr s => s
  | _ => format_value v
  end.

Definition summarize_transcript (transcript : string) : string * bool :=
  match mistral_client with
  | None => ("Mistral client unavailable. Check API key or imports.", false)
  | Some client =>
      let prompt := summary_prompt transcript in
      match choices <- chat_complete client MODEL_NAME prompt ;;
            first_choice choices with
      | Ok msg => (msg, true)
      | Error e => ("Mistral API Error: " ++ str e, false)
      end
  end.

(** Lines 228-231 *)
Definition build_answer_prompt (summary question : json) : result string :=
  s <- slice_value 2500 summary ;;
  q <- slice_value 500 question ;;
  Ok (answer_prompt_text (format s) (format q)).

(** The body of the [try] block of [ask], from line 204 on. *)
Definition ask_data (data : json) : result response :=
  missing <- first_missing required_keys data ;;
  match missing with
  | Some k =>
      Ok {| body := [("error", JStr (k ++ " is required."))]; status := 400 |}
  | None =>
      question <- subscript data "question" ;;
      _ <- subscript data "prompt_count" ;;
      summary <- subscript data "summary" ;;
      raw <- get_default data "prompt_count" (JInt 0) ;;
      prompt_count <- py_int raw ;;
      if (prompt_count >=? 8)%Z then
        Ok {| body := [("success", JBool false);
                       ("error", JStr "Max prompt limit reached")];
              status := 400 |}
      else
        match mistral_client with
        | None =>
            Ok {| body := [("success", JBool false);
                           ("error", JStr "Mistral API Key or client initialization failed.")];
                  status := 500 |}
        | Some client =>
            prompt <- build_answer_prompt summary question ;;
            choices <- chat_complete client MODEL_NAME prompt ;;
            answer <- first_choice choices ;;
            Ok {| body := [("success", JBool true);
                           ("answer", JStr answer);
                           ("prompt_count", JInt (prompt_count + 1))];
                  status := 200 |}
        end
  end.

(** The [try] block of [ask]. *)
Definition ask_try (req : request) : result response :=
  if negb (is_json req) then
    Ok {| body := [("verification", JBool false);
                   ("error", JStr "JSON not available.")];
          status := 400 |}
  else
    data <- get_json req ;;
    match data with
    | JNull =>
        Ok {| body := [("verification", JBool false);
                       ("error", JStr "Request failed.")];
              status := 400 |}
    | _ => ask_data data
    end.

Definition ask (req : request) : response :=
  match ask_try req with
  | Ok r => r
  | Error e =>
      {| body := [("verification", JBool false);
                  ("error", JStr ("Internal server error " ++ str e))];
         status := 500 |}
  end.
End Services.

(** ** The [/summarize] handler *)

(** The truth value of a JSON value: [not v] is its negation. *)
Definition truthy (v : json) : bool :=
  match v with
  | JNull => false
  | JBool b => b
  | JInt z => negb (z =? 0)%Z
  | JStr s => nonempty s
  | JArr l => match l with [] => false | _ :: _ => true end
  | JObj kv => match kv with [] => false | _ :: _ => true end
  end.

(** What the handler hands to Flask: a response, or the [TypeError] that
    [re.search] raises on a [video_url] that is not a string (line 40 is
    called from line 165, outside both [try] blocks). *)
Inductive outcome : Type :=
| Returned (r : response)
| SearchTypeError (video_url : json).

(** [jsonify({'success': False, 'error': msg}), code] *)
Definition failure (msg : string) (code : nat) : response :=
  {| body := [("success", JBool false); ("error", JStr msg)]; status := code |}.

(** Line 181; Flask's default status. *)
Definition summary_response (summary : string) : response :=
  {| body := [("success", JBool true); ("summary", JStr summary)]; status := 200 |}.

(** Lines 157-163, the first [try] block with its bare [except]: the
    response it returns, or the value of [video_url] it leaves. *)
Definition read_video_url (req : request) : response + json :=
  match data <- get_json req ;; get_default data "video_url" JNull with
  | Ok video_url =>
      if negb (truthy video_url) then inl (failure "No URL provided." 400)
      else inr video_url
  | Error _ => inl (failure "Invalid JSON." 400)
  end.

Section Summarize.
Context `{Runtime}.
Variable yt_dlp : option ytdlp.
Variable mistral_client : option mistral.

(** Lines 165-190, for a [video_url] that is a string. *)
Definition summarize_url (video_url : string) : response :=
  match get_video_id video_url with
  | Some video_id =>
      if negb (nonempty video_id) then failure "Invalid YouTube Link." 400
      else
        match get_transcript_with_ytdlp yt_dlp video_id with
        | Ok transcript_text =>
            let (summary, success) :=
              summarize_transcript mistral_client transcript_text in
            if success then summary_response summary else failure summary 500
        | Error e => failure ("Failed to get transcript: " ++ str e) 500
        end
  | None => failure "Invalid YouTube Link." 400
  end.

Definition summarize (req : request) : outcome :=
  match yt_dlp with
  | None =>
      Returned
        (failure "Server Error: yt-dlp library not installed. Install with: pip install yt-dlp"
                 500)
  | Some _ =>
      match mistral_client with
      | None => Returned (failure "Mistral API Key or client initialization failed." 500)
      | Some _ =>
          match read_video_url req with
          | inl r => Returned r
          | inr (JStr video_url) => Returned (summarize_url video_url)
          | inr video_url => SearchTypeError video_url
          end
      end
  end.
End Summarize.

(** ** Start-up *)

(** Lines 28-36: [MISTRAL_API_KEY] is the environment's value ([None]: not
    set) and [Mistral] the client's constructor. *)
Definition init_mistral_client (MISTRAL_API_KEY : option string)
    (Mistral : string -> result mistral) : option mistral :=
  match MISTRAL_API_KEY with
  | Some key =>
      if nonempty key then
        match Mistral key with
        | Ok client => Some client
        | Error _ => None
        end
      else None
  | None => None
  end.

(** ** Vocabulary of the statements *)

(** [rest] does not continue a run of class characters. *)
Definition stops (rest : string) : Prop :=
  match rest with
  | EmptyString => True
  | String c _ => id_char c = false
  end.

(** The two literals the pattern looks behind for. *)
Definition marker (m : string) : Prop := m = "v=" \/ m = "youtu.be/".

(** A marker ends at offset [p] of [url] and [id] is the longest run of
    class characters that starts there, which is not empty. *)
Definition occurs_at (url : string) (p : nat) (id : string) : Prop :=
  exists pre m rest,
    url = pre ++ m ++ id ++ rest /\ marker m /\
    String.length pre + String.length m = p /\
    id <> "" /\ all_chars id_char id = true /\ stops rest.

(** The selection policy in the words of the specification: (a) manual
    English, (b) else the first listed manual language, (c) else automatic
    English, (d) else nothing.  The result names the origin, the language
    and the track descriptors of the choice. *)
Inductive origin : Type := Manual | Automatic.

Definition spec_automatic_english (info : video_info)
  : option (origin * string * list track) :=
  match automatic_captions info with
  | Some autos =>
      match lookup "en" autos with
      | Some tracks => Some (Automatic, "en", tracks)
      | None => None
      end
  | None => None
  end.

Definition spec_selection (info : video_info)
  : option (origin * string * list track) :=
  match subtitles info with
  | Some subs =>
      match lookup "en" subs with
      | Some tracks => Some (Manual, "en", tracks)
      | None =>
          match subs with
          | (first_lang, tracks) :: _ => Some (Manual, first_lang, tracks)
          | [] => spec_automatic_english info
          end
      end
  | None => spec_automatic_english info
  end.

(** The two messages of lines 86 and 89, the specification's
    [CaptionUnavailable]. *)
Definition caption_unavailable (msg : string) : Prop :=
  msg = "No captions available for this video" \/
  msg = "Could not find subtitle URL".

(** Flattening in the words of the specification: the texts of the segments
    that carry one, of the events that have segments, in order. *)
Definition spec_seg_texts (ss : list seg) : list string :=
  flat_map (fun sg => match utf8 sg with Some t => [t] | None => [] end) ss.

Definition spec_event_texts (ev : event) : list string :=
  match segs ev with
  | Some ss => spec_seg_texts ss
  | None => []
  end.

Definition spec_flatten (es : list event) : string :=
  join " " (flat_map spec_event_texts es).

(** [kept] is what a slice [input[:limit]] should keep: all of [input] when
    it has at most [limit] characters, else its first [limit] characters. *)
Definition truncated_to (limit : nat) (input kept : string) : Prop :=
  (String.length input <= limit /\ kept = input) \/
  (exists beyond, input = kept ++ beyond /\ String.length kept = limit).

(** A request whose body parsed to the JSON object [kv]. *)
Definition json_request (kv : list (string * json)) : request :=
  {| is_json := true; get_json := Ok (JObj kv) |}.

(** The object [kv] carries the three required fields. *)
Definition carries (kv : list (string * json)) (question prompt_count summary : json)
  : Prop :=
  lookup "question" kv = Some question /\
  lookup "prompt_count" kv = Some prompt_count /\
  lookup "summary" kv = Some summary.

(** The response of lines 217-220. *)
Definition limit_response : response :=
  {| body := [("success", JBool false); ("error", JStr "Max prompt limit reached")];
     status := 400 |}.

(** The response of lines 239-243. *)
Definition success_response (answer : string) (next_count : Z) : response :=
  {| body := [("success", JBool true); ("answer", JStr answer);
              ("prompt_count", JInt next_count)];
     status := 200 |}.

(** The response of line 246. *)
Definition internal_error_response `{Runtime} (e : exn) : response :=
  {| body := [("verification", JBool false);
              ("error", JStr ("Internal server error " ++ str e))];
     status := 500 |}.

(** Lines 213-243 of the handler, which it reaches once the three fields
    are there ([ask_data_carries] below). *)
Section Turn.
Context `{Runtime}.
Variable mistral_client : option mistral.

Definition turn (question prompt_count summary : json) : result response :=
  n <- py_int prompt_count ;;
  if (n >=? 8)%Z then Ok limit_response
  else
    match mistral_client with
    | None =>
        Ok {| body := [("success", JBool false);
                       ("error", JStr "Mistral API Key or client initialization failed.")];
              status := 500 |}
    | Some client =>
        prompt <- build_answer_prompt summary question ;;
        choices <- chat_complete client MODEL_NAME prompt ;;
        answer <- first_choice choices ;;
        Ok (success_response answer (n + 1))
    end.
End Turn.

(** The keys of a response body. *)
Definition shape (r : response) : list string := map fst (body r).

(** ** Fixtures for the examples *)

(** An interpreter that words its exceptions by their class alone. *)
Definition plain_runtime : Runtime :=
  {| builtin_text := fun b =>
       match b with
       | IndexError => "IndexError"
       | KeyError _ => "KeyError"
       | IntTypeError _ => "TypeError"
       | IntValueError _ => "ValueError"
       | NotIterable _ => "TypeError"
       | BadSubscript _ => "TypeError"
       | AttributeError _ => "AttributeError"
       end;
     format_value := fun _ => "<value>";
     int_max_str_digits := 4300 |}.

(** A client that answers every prompt with the prompt itself. *)
Definition echo_client : mistral :=
  {| chat_complete := fun _ prompt => Ok [prompt] |}.

(** A provider with one fixed metadata record and one fixed payload. *)
Definition fixed_ytdlp (info : video_info) (subs : caption_doc) : ytdlp :=
  {| extract_info := fun _ => Ok info; open_captions := fun _ => Ok subs |}.

(** Metadata with French automatic captions only, metadata with English
    manual captions only, and a payload whose only text is a blank and a
    line break. *)
Definition french_automatic_info : video_info :=
  {| subtitles := None;
     automatic_captions :=
       Some [("fr", [{| url := Some "https://example.org/fr.json3" |}])] |}.

Definition english_manual_info : video_info :=
  {| subtitles := Some [("en", [{| url := Some "https://example.org/en.json3" |}])];
     automatic_captions := None |}.

Definition blank_captions : caption_doc :=
  {| events := Some [{| segs := Some [{| utf8 := Some (" " ++ newline) |}] |}] |}.

(** A well-formed turn with the given counter. *)
Definition turn_request (prompt_count : json) : request :=
  json_request [("question", JStr "Why?"); ("prompt_count", prompt_count);
                ("summary", JStr "A talk.")].

(** [n] copies of [c]. *)
Fixpoint replicate (n : nat) (c : ascii) : string :=
  match n with
  | O => EmptyString
  | S k => String c (replicate k c)
  end.

(** ** Vocabulary of the further statements *)

(** What can follow the prefix in the message of a failed fetch: the text
    of the provider's own error (metadata query or download), one of the
    two caption-unavailable messages, the interpreter's text for the index
    error of an empty track list or for the key error of a track without
    [url], or the empty-transcript message. *)
Definition fetch_failure_text `{Runtime} (ydl : ytdlp) (video_id m : string) : Prop :=
  (exists e,
      extract_info ydl ("https://www.youtube.com/watch?v=" ++ video_id) = Error e /\
      m = str e) \/
  caption_unavailable m \/
  m = builtin_text IndexError \/
  m = builtin_text (KeyError "url") \/
  (exists subtitle_url e, open_captions ydl subtitle_url = Error e /\ m = str e) \/
  m = "Transcript extracted but empty".

(** Metadata whose English manual entry lists no track. *)
Definition empty_english_info : video_info :=
  {| subtitles := Some [("en", [])];
     automatic_captions :=
       Some [("en", [{| url := Some "https://example.org/auto.json3" |}])] |}.

(** A payload with the two events of the specification's example. *)
Definition example_captions : caption_doc :=
  {| events := Some [{| segs := Some [{| utf8 := Some "a" |}] |};
                     {| segs := Some [{| utf8 := Some "b" |}] |}] |}.


(** A [/summarize] request with the given [video_url]. *)
Definition summarize_request (video_url : json) : request :=
  json_request [("video_url", video_url)].

(** A client whose every call raises. *)
Definition failing_client : mistral :=
  {| chat_complete := fun _ _ => Error (Collaborator "503 Service Unavailable") |}.


(** The response of line 207. *)
Definition missing_key_response (k : string) : response :=
  {| body := [("error", JStr (k ++ " is required."))]; status := 400 |}.

(** The values [v[:n]] is defined on. *)
Definition sliceable (v : json) : bool :=
  match v with
  | JStr _ | JArr _ => true
  | _ => false
  end.

(** * Facts about strings *)

#[local] Arguments String.eqb : simpl never.

Section StringFacts.

Lemma append_empty_r (s : string) : s ++ "" = s.
Proof. induction s as [|c s IH]; simpl; [reflexivity | now rewrite IH]. Qed.

Lemma append_assoc (a b c : string) : (a ++ b) ++ c = a ++ b ++ c.
Proof. induction a as [|x a IH]; simpl; [reflexivity | now rewrite IH]. Qed.

Lemma length_append (a b : string) :
  String.length (a ++ b) = String.length a + String.length b.
Proof. induction a as [|x a IH]; simpl; [reflexivity | now rewrite IH]. Qed.

Lemma take_drop (n : nat) (s : string) : take n s ++ drop n s = s.
Proof.
  revert s; induction n as [|n IH]; intros [|c s]; simpl; try reflexivity.
  now rewrite IH.
Qed.

Lemma length_take (n : nat) (s : string) :
  String.length (take n s) = Nat.min n (String.length s).
Proof.
  revert s; induction n as [|n IH]; intros [|c s]; simpl; try reflexivity.
  now rewrite IH.
Qed.

Lemma take_all (n : nat) (s : string) :
  String.length s <= n -> take n s = s.
Proof.
  revert s; induction n as [|n IH]; intros [|c s]; simpl; intros Hn;
    try reflexivity; try lia.
  rewrite IH; [reflexivity | lia].
Qed.

Lemma take_append_exact (a b : string) : take (String.length a) (a ++ b) = a.
Proof. induction a as [|x a IH]; simpl; [now destruct b | now rewrite IH]. Qed.

Lemma drop_append_exact (a b : string) : drop (String.length a) (a ++ b) = b.
Proof. induction a as [|x a IH]; simpl; [reflexivity | exact IH]. Qed.

Lemma take_append_le (n : nat) (a b : string) :
  n <= String.length a -> take n (a ++ b) = take n a.
Proof.
  revert a; induction n as [|n IH]; intros [|x a]; simpl; intros Hn;
    try reflexivity; try lia.
  rewrite IH; [reflexivity | lia].
Qed.

Lemma append_split (a b c d : string) :
  a ++ b = c ++ d -> String.length a = String.length c -> a = c /\ b = d.
Proof.
  revert c; induction a as [|x a IH]; intros [|y c]; simpl; intros E L;
    try discriminate.
  - now split.
  - injection E as -> E. destruct (IH c E) as [-> ->]; [lia | now split].
Qed.


Lemma nonempty_true (s : string) : nonempty s = true <-> s <> "".
Proof. destruct s; simpl; split; congruence. Qed.

Lemma nonempty_false (s : string) : nonempty s = false <-> s = "".
Proof. destruct s; simpl; split; congruence. Qed.

End StringFacts.

(** * The video identifier *)

Section VideoId.

Lemma class_run_all (s : string) : all_chars id_char (class_run s) = true.
Proof.
  induction s as [|c s IH]; simpl; [reflexivity|].
  destruct (id_char c) eqn:E; simpl; [now rewrite E | reflexivity].
Qed.

Lemma class_run_split (s : string) :
  exists rest, s = class_run s ++ rest /\ stops rest.
Proof.
  induction s as [|c s (rest & E & St)]; simpl.
  - exists ""; now split.
  - destruct (id_char c) eqn:Ec.
    + exists rest; simpl; split; [now rewrite <- E | exact St].
    + exists (String c s); simpl; now split.
Qed.

Lemma class_run_append (id rest : string) :
  all_chars id_char id = true -> stops rest -> class_run (id ++ rest) = id.
Proof.
  induction id as [|c id IH]; simpl; intros A St.
  - destruct rest as [|c rest]; simpl in *; [reflexivity | now rewrite St].
  - apply andb_true_iff in A as [Ac A]. rewrite Ac. now rewrite IH.
Qed.

Lemma lookbehind_spec (lit s : string) (p : nat) :
  lookbehind lit s p = true <->
  exists pre post,
    s = pre ++ lit ++ post /\ String.length pre + String.length lit = p.
Proof.
  unfold lookbehind; split.
  - intros Hb.
    apply andb_true_iff in Hb as [Hb He].
    apply andb_true_iff in Hb as [Hl Hp].
    apply Nat.leb_le in Hl, Hp. apply String.eqb_eq in He.
    exists (take (p - String.length lit) s),
           (drop (String.length lit) (drop (p - String.length lit) s)).
    split.
    + rewrite <- He at 2. now rewrite !take_drop.
    + rewrite length_take. lia.
  - intros (pre & post & -> & <-).
    replace (String.length pre + String.length lit - String.length lit)
      with (String.length pre) by lia.
    rewrite drop_append_exact, take_append_exact, String.eqb_refl.
    rewrite !length_append.
    rewrite andb_true_r. apply andb_true_iff; split; apply Nat.leb_le; lia.
Qed.

Lemma alternative_spec (lit s : string) (p : nat) (id : string) :
  alternative lit s p = Some id <->
  exists pre rest,
    s = pre ++ lit ++ id ++ rest /\ String.length pre + String.length lit = p /\
    id <> "" /\ all_chars id_char id = true /\ stops rest.
Proof.
  unfold alternative; split.
  - destruct (lookbehind lit s p) eqn:Hb; [|discriminate].
    apply lookbehind_spec in Hb as (pre & post & -> & <-).
    rewrite <- append_assoc, <- length_append, drop_append_exact.
    destruct (class_run_split post) as (rest & E & St).
    pose proof (class_run_all post) as A.
    destruct (class_run post) as [|c r] eqn:R; [discriminate|].
    intros [= <-]. exists pre, rest. rewrite <- E.
    split; [apply append_assoc|]. split; [now rewrite length_append|].
    split; [discriminate|]. now split.
  - intros (pre & rest & -> & <- & Hne & A & St).
    assert (Hb : lookbehind lit (pre ++ lit ++ id ++ rest)
                   (String.length pre + String.length lit) = true)
      by (apply lookbehind_spec; now exists pre, (id ++ rest)).
    rewrite Hb, <- append_assoc, <- length_append, drop_append_exact.
    rewrite (class_run_append _ _ A St).
    destruct id; [congruence | reflexivity].
Qed.

Lemma match_at_occurs (s : string) (p : nat) (id : string) :
  match_at s p = Some id <-> occurs_at s p id.
Proof.
  unfold match_at, occurs_at, marker; split.
  - destruct (alternative "v=" s p) as [m|] eqn:A1.
    + intros [= ->]. apply alternative_spec in A1 as (pre & rest & H).
      exists pre, "v=", rest. intuition.
    + intros A2. apply alternative_spec in A2 as (pre & rest & H).
      exists pre, "youtu.be/", rest. intuition.
  - intros (pre & m & rest & E & [-> | ->] & L & Hne & A & St).
    + assert (A1 : alternative "v=" s p = Some id)
        by (apply alternative_spec; now exists pre, rest).
      now rewrite A1.
    + assert (A2 : alternative "youtu.be/" s p = Some id)
        by (apply alternative_spec; now exists pre, rest).
      destruct (alternative "v=" s p) as [m|] eqn:A1; [|exact A2].
      apply alternative_spec in A1 as (pre1 & rest1 & E1 & L1 & _ & A' & St').
      (* both alternatives start their run at the same offset *)
      rewrite E, <- (append_assoc pre1), <- (append_assoc pre) in E1.
      apply append_split in E1 as [_ E1]; [|rewrite !length_append; lia].
      f_equal.
      rewrite <- (class_run_append m rest1 A' St'), <- E1.
      now apply class_run_append.
Qed.

Lemma first_match_some (f : nat -> option string) (start count : nat) (m : string) :
  first_match f start count = Some m <->
  exists p, start <= p < start + count /\ f p = Some m /\
            forall q, start <= q < p -> f q = None.
Proof.
  revert start; induction count as [|k IH]; intros start; simpl.
  - split; [discriminate | intros (p & Hp & _); lia].
  - destruct (f start) as [m'|] eqn:F.
    + split.
      * intros [= ->]. exists start. repeat split; auto; lia.
      * intros (p & Hp & Fp & Hmin).
        destruct (Nat.eq_dec p start) as [-> | Hne]; [congruence|].
        rewrite (Hmin start) in F; [discriminate | lia].
    + rewrite IH. split.
      * intros (p & Hp & Fp & Hmin). exists p. repeat split; auto; try lia.
        intros q Hq. destruct (Nat.eq_dec q start) as [-> | Hne]; auto.
        apply Hmin; lia.
      * intros (p & Hp & Fp & Hmin).
        destruct (Nat.eq_dec p start) as [-> | Hne]; [congruence|].
        exists p. repeat split; auto; try lia.
        intros q Hq. apply Hmin; lia.
Qed.

Lemma first_match_none (f : nat -> option string) (start count : nat) :
  first_match f start count = None <->
  forall p, start <= p < start + count -> f p = None.
Proof.
  revert start; induction count as [|k IH]; intros start; simpl.
  - split; [intros _ p Hp; lia | reflexivity].
  - destruct (f start) as [m'|] eqn:F.
    + split; [discriminate|]. intros Hall. rewrite Hall in F; [discriminate | lia].
    + rewrite IH. split; intros Hall p Hp.
      * destruct (Nat.eq_dec p start) as [-> | Hne]; auto. apply Hall; lia.
      * apply Hall; lia.
Qed.

Lemma occurs_at_bound (url : string) (p : nat) (id : string) :
  occurs_at url p id -> p < String.length url.
Proof.
  intros (pre & m & rest & -> & _ & <- & Hne & _).
  rewrite !length_append. destruct id; [congruence | simpl; lia].
Qed.

Lemma re_search_some (url id : string) :
  re_search url = Some id <->
  exists p, occurs_at url p id /\
            forall q id', occurs_at url q id' -> p <= q.
Proof.
  unfold re_search. rewrite first_match_some. split.
  - intros (p & Hp & Fp & Hmin). exists p. split; [now apply match_at_occurs|].
    intros q id' Hq. destruct (le_lt_dec p q) as [|Hlt]; [assumption|].
    apply match_at_occurs in Hq. rewrite Hmin in Hq; [discriminate | lia].
  - intros (p & Hoc & Hmin). exists p.
    pose proof (occurs_at_bound _ _ _ Hoc).
    repeat split; try lia; [now apply match_at_occurs|].
    intros q Hq. destruct (match_at url q) as [id'|] eqn:F; [|reflexivity].
    apply match_at_occurs, Hmin in F. lia.
Qed.

Lemma re_search_none (url : string) :
  re_search url = None <-> forall p id, ~ occurs_at url p id.
Proof.
  unfold re_search. rewrite first_match_none. split.
  - intros Hall p id Hoc. pose proof (occurs_at_bound _ _ _ Hoc).
    apply match_at_occurs in Hoc. rewrite Hall in Hoc; [discriminate | lia].
  - intros Hno p _. destruct (match_at url p) as [id|] eqn:F; [|reflexivity].
    apply match_at_occurs in F. now apply Hno in F.
Qed.

End VideoId.

(** C6, as the code has it.  [get_video_id] never raises (it is a total
    function into [option]); it returns [id] exactly when [id] is the longest
    non-empty run of class characters after the LEFTMOST marker ([v=] or
    [youtu.be/]) that is followed by such a run; it returns null exactly when
    the URL has no such occurrence, and in particular on the empty string. *)
Theorem get_video_id_leftmost (url : string) :
  (forall id,
      get_video_id url = Some id <->
      exists p, occurs_at url p id /\
                forall q id', occurs_at url q id' -> p <= q) /\
  (get_video_id url = None <-> forall p id, ~ occurs_at url p id) /\
  get_video_id "" = None.
Proof.
  unfold get_video_id. destruct url as [|c url]; simpl negb; cbv iota.
  - split; [|split; [|reflexivity]].
    + intros id; split; [discriminate|].
      intros (p & Hoc & _). apply occurs_at_bound in Hoc. simpl in Hoc. lia.
    + split; [|reflexivity].
      intros _ p id Hoc. apply occurs_at_bound in Hoc. simpl in Hoc. lia.
  - split; [|split; [|reflexivity]].
    + intros id. apply re_search_some.
    + apply re_search_none.
Qed.

(** The theorem above at a short link that also carries a [v=] parameter. *)
Lemma get_video_id_leftmost_witness :
  exists p, occurs_at "https://youtu.be/abc?v=def" p "abc" /\
            forall q id', occurs_at "https://youtu.be/abc?v=def" q id' -> p <= q.
Proof.
  apply (proj1 (proj1 (get_video_id_leftmost "https://youtu.be/abc?v=def") "abc")).
  vm_compute. reflexivity.
Defined.

(** C6 as stated fails: this URL contains the marker [v=] followed by the
    maximal run [def], and the extractor does not return [def] (it returns
    [abc], the run after the earlier short-link marker). *)
Lemma get_video_id_second_marker_ignored :
  occurs_at "https://youtu.be/abc?v=def" 23 "def" /\
  get_video_id "https://youtu.be/abc?v=def" = Some "abc" /\
  get_video_id "https://youtu.be/abc?v=def" <> Some "def".
Proof.
  split; [|split].
  - apply match_at_occurs. vm_compute. reflexivity.
  - vm_compute. reflexivity.
  - vm_compute. discriminate.
Qed.

(** * The transcript *)

Lemma bind_ok {A B : Type} (r : result A) (k : A -> result B) (b : B) :
  bind r k = Ok b -> exists a, r = Ok a /\ k a = Ok b.
Proof. destruct r as [a|e]; simpl; [now exists a | discriminate]. Qed.

Section Selection.

Lemma lookup_head {A : Type} (k : string) (v : A) (rest : list (string * A)) :
  lookup k ((k, v) :: rest) = Some v.
Proof. simpl. now rewrite String.eqb_refl. Qed.

Lemma choose_follows_spec (info : video_info) :
  match spec_selection info with
  | Some (_, _, tracks) => choose_subtitle_url info = first_track_url tracks
  | None =>
      choose_subtitle_url info = Ok None \/
      choose_subtitle_url info =
        Error (Exception "No captions available for this video")
  end.
Proof.
  assert (Auto :
    present_and_truthy (subtitles info) = false ->
    match spec_automatic_english info with
    | Some (_, _, tracks) => choose_subtitle_url info = first_track_url tracks
    | None =>
        choose_subtitle_url info = Ok None \/
        choose_subtitle_url info =
          Error (Exception "No captions available for this video")
    end).
  { intros Hs. unfold choose_subtitle_url, spec_automatic_english, has_key, getitem.
    rewrite Hs.
    destruct (automatic_captions info) as [[|[l ts] autos]|]; simpl; auto.
    destruct (String.eqb "en" l); simpl; [reflexivity|].
    destruct (lookup "en" autos); simpl; auto. }
  unfold spec_selection.
  destruct (subtitles info) as [[|[l ts] subs]|] eqn:Hs.
  - cbn [lookup]. now apply Auto.
  - unfold choose_subtitle_url, has_key, getitem. rewrite Hs.
    cbn [present_and_truthy map fst].
    destruct (lookup "en" ((l, ts) :: subs)) as [tracks|]; cbn [bind].
    + reflexivity.
    + now rewrite lookup_head.
  - now apply Auto.
Qed.

End Selection.

(** C1.  The subtitle URL is resolved from the track list the precedence
    (a) manual English, (b) first listed manual language, (c) automatic
    English selects, and with choice (d) the fetch fails with one of the two
    caption-unavailable messages; automatic captions without English and no
    manual captions give the failure, not the first automatic language. *)
Theorem caption_selection_precedence `{Runtime}
    (ydl : ytdlp) (video_id : string) (info : video_info) :
  extract_info ydl ("https://www.youtube.com/watch?v=" ++ video_id) = Ok info ->
  match spec_selection info with
  | Some (_, _, tracks) =>
      choose_subtitle_url info = first_track_url tracks /\
      fetch_transcript ydl video_id =
        (u <- first_track_url tracks ;;
         subtitle_url <- require_subtitle_url u ;;
         subs <- open_captions ydl subtitle_url ;;
         checked_transcript subs)
  | None =>
      exists msg,
        caption_unavailable msg /\
        get_transcript_with_ytdlp (Some ydl) video_id =
          Error (Exception ("Failed to fetch transcript with yt-dlp: " ++ msg))
  end /\
  (forall first_lang tracks autos,
      subtitles info = None ->
      automatic_captions info = Some ((first_lang, tracks) :: autos) ->
      lookup "en" ((first_lang, tracks) :: autos) = None ->
      get_transcript_with_ytdlp (Some ydl) video_id =
        Error (Exception
                 "Failed to fetch transcript with yt-dlp: Could not find subtitle URL")).
Proof.
  intros Hinfo. split.
  - pose proof (choose_follows_spec info) as Hc.
    destruct (spec_selection info) as [[[o lang] tracks]|].
    + split; [exact Hc|].
      unfold fetch_transcript. rewrite Hinfo. cbn [bind]. now rewrite Hc.
    + unfold get_transcript_with_ytdlp, fetch_transcript, caption_unavailable.
      rewrite Hinfo. cbn [bind].
      destruct Hc as [-> | ->]; cbn [bind require_subtitle_url str].
      * exists "Could not find subtitle URL". split; [now right | reflexivity].
      * exists "No captions available for this video".
        split; [now left | reflexivity].
  - intros first_lang tracks autos Hs Ha Hen.
    unfold get_transcript_with_ytdlp, fetch_transcript.
    rewrite Hinfo. cbn [bind].
    unfold choose_subtitle_url, has_key. rewrite Hs, Ha.
    cbn [present_and_truthy]. now rewrite Hen.
Qed.

(** The theorem above on a video that has French automatic captions only. *)
Lemma caption_selection_precedence_witness :
  @get_transcript_with_ytdlp plain_runtime
    (Some (fixed_ytdlp french_automatic_info blank_captions)) "abc123" =
  Error (Exception
           "Failed to fetch transcript with yt-dlp: Could not find subtitle URL").
Proof.
  exact (proj2 (@caption_selection_precedence plain_runtime
                  (fixed_ytdlp french_automatic_info blank_captions)
                  "abc123" french_automatic_info eq_refl)
           "fr" [{| url := Some "https://example.org/fr.json3" |}] []
           eq_refl eq_refl eq_refl).
Defined.

Section Flattening.

Lemma append_segs_spec (ss : list seg) (parts : list string) :
  append_segs parts ss = (parts ++ spec_seg_texts ss)%list.
Proof.
  unfold append_segs, spec_seg_texts.
  revert parts; induction ss as [|sg ss IH]; intros parts; cbn [fold_left flat_map].
  - now rewrite app_nil_r.
  - rewrite IH. destruct (utf8 sg) as [t|]; [|reflexivity].
    now rewrite <- app_assoc.
Qed.

Lemma fold_events_spec (es : list event) (parts : list string) :
  fold_left
    (fun acc ev =>
       match segs ev with Some ss => append_segs acc ss | None => acc end)
    es parts
  = (parts ++ flat_map spec_event_texts es)%list.
Proof.
  revert parts; induction es as [|ev es IH]; intros parts; cbn [fold_left flat_map].
  - now rewrite app_nil_r.
  - rewrite IH. unfold spec_event_texts at 2.
    destruct (segs ev) as [ss|].
    + now rewrite append_segs_spec, <- app_assoc.
    + reflexivity.
Qed.

Lemma transcript_parts_spec (es : list event) :
  transcript_parts {| events := Some es |} = flat_map spec_event_texts es.
Proof. unfold transcript_parts. cbn [events]. now rewrite fold_events_spec. Qed.

End Flattening.

(** C2.  The loop of lines 99-106 computes the flattening of the
    specification: the texts of the segments that carry one, of the events
    that have segments, in their original order, joined with single spaces.
    The parts of consecutive runs of events follow each other, an event
    without segments and a segment without text contribute nothing, and the
    two events of the example flatten to "a b". *)
Theorem transcript_flattening :
  (forall es, transcript_text {| events := Some es |} = spec_flatten es) /\
  transcript_text {| events := None |} = "" /\
  (forall es1 es2 : list event,
      transcript_parts {| events := Some (es1 ++ es2)%list |} =
      (transcript_parts {| events := Some es1 |} ++
       transcript_parts {| events := Some es2 |})%list) /\
  (forall ss, transcript_parts {| events := Some [{| segs := Some ss |}] |} =
              flat_map (fun sg => match utf8 sg with Some t => [t] | None => [] end) ss) /\
  transcript_parts {| events := Some [{| segs := None |}] |} = [] /\
  transcript_parts {| events := Some [{| segs := Some [{| utf8 := None |}] |}] |} = [] /\
  transcript_text
    {| events := Some [{| segs := Some [{| utf8 := Some "a" |}] |};
                       {| segs := Some [{| utf8 := Some "b" |}] |}] |} = "a b".
Proof.
  split; [|split; [|split; [|split; [|split; [|split]]]]]; try reflexivity.
  - intros es. unfold transcript_text, spec_flatten.
    now rewrite transcript_parts_spec.
  - intros es1 es2. rewrite !transcript_parts_spec. apply flat_map_app.
  - intros ss. rewrite transcript_parts_spec. cbn [flat_map spec_event_texts segs].
    now rewrite app_nil_r.
Qed.

Section Stripping.

Lemma rstrip_empty (s : string) :
  rstrip s = "" <-> all_chars isspace s = true.
Proof.
  induction s as [|c s IH]; cbn [rstrip all_chars]; [tauto|].
  destruct (isspace c); cbn [andb].
  - destruct (rstrip s) as [|d r]; cbn [nonempty negb].
    + tauto.
    + split; [discriminate|]. intros A. apply IH in A. discriminate.
  - split; discriminate.
Qed.

Lemma lstrip_spaces (s : string) :
  all_chars isspace (lstrip s) = all_chars isspace s.
Proof.
  induction s as [|c s IH]; cbn [lstrip all_chars]; [reflexivity|].
  destruct (isspace c) eqn:E; cbn [andb]; [exact IH|].
  cbn [all_chars]. now rewrite E.
Qed.

Lemma strip_empty (s : string) :
  strip s = "" <-> all_chars isspace s = true.
Proof. unfold strip. now rewrite rstrip_empty, lstrip_spaces. Qed.

Lemma checked_transcript_ok (subs : caption_doc) (text : string) :
  checked_transcript subs = Ok text ->
  text = transcript_text subs /\ strip text <> "".
Proof.
  unfold checked_transcript.
  destruct (nonempty (strip (transcript_text subs))) eqn:E; cbn [negb];
    [|discriminate].
  intros [= <-]. split; [reflexivity | now apply nonempty_true].
Qed.

Lemma checked_transcript_empty (subs : caption_doc) :
  strip (transcript_text subs) = "" <->
  checked_transcript subs = Error (Exception "Transcript extracted but empty").
Proof.
  unfold checked_transcript. split.
  - intros ->. reflexivity.
  - destruct (nonempty (strip (transcript_text subs))) eqn:E; cbn [negb];
      [discriminate|]. intros _. now apply nonempty_false.
Qed.

End Stripping.

(** C3.  A transcript the fetcher returns is never empty and never made of
    white space only; and when the flattened, joined text of the downloaded
    document is empty after trimming (which is: all its characters are white
    space), the fetch fails with the empty-transcript error. *)
Theorem empty_transcript_rejected `{Runtime}
    (yt_dlp : option ytdlp) (video_id : string) :
  (forall text,
      get_transcript_with_ytdlp yt_dlp video_id = Ok text ->
      text <> "" /\ strip text <> "" /\ all_chars isspace text = false) /\
  (forall ydl info subtitle_url subs,
      yt_dlp = Some ydl ->
      extract_info ydl ("https://www.youtube.com/watch?v=" ++ video_id) = Ok info ->
      (u <- choose_subtitle_url info ;; require_subtitle_url u) = Ok subtitle_url ->
      open_captions ydl subtitle_url = Ok subs ->
      strip (transcript_text subs) = "" ->
      get_transcript_with_ytdlp yt_dlp video_id =
        Error (Exception
                 "Failed to fetch transcript with yt-dlp: Transcript extracted but empty")) /\
  (forall subs,
      all_chars isspace (transcript_text subs) = true <->
      checked_transcript subs = Error (Exception "Transcript extracted but empty")).
Proof.
  split; [|split].
  - intros text. unfold get_transcript_with_ytdlp.
    destruct yt_dlp as [ydl|]; [|discriminate].
    destruct (fetch_transcript ydl video_id) as [t|e] eqn:F; [|discriminate].
    intros [= ->]. unfold fetch_transcript in F.
    apply bind_ok in F as (info & _ & F).
    apply bind_ok in F as (u & _ & F).
    apply bind_ok in F as (subtitle_url & _ & F).
    apply bind_ok in F as (subs & _ & F).
    apply checked_transcript_ok in F as [_ Hne].
    split; [|split].
    + intros ->. now apply Hne.
    + exact Hne.
    + destruct (all_chars isspace text) eqn:A; [|reflexivity].
      apply strip_empty in A. contradiction.
  - intros ydl info subtitle_url subs -> Hinfo Hurl Hopen Hempty.
    unfold get_transcript_with_ytdlp, fetch_transcript.
    rewrite Hinfo. cbn [bind].
    destruct (choose_subtitle_url info) as [u|e]; [|discriminate].
    cbn [bind] in *. rewrite Hurl. cbn [bind]. rewrite Hopen. cbn [bind].
    apply checked_transcript_empty in Hempty. now rewrite Hempty.
  - intros subs. rewrite <- strip_empty. apply checked_transcript_empty.
Qed.

(** The theorem above on a document whose only segment is a blank and a
    line break. *)
Lemma empty_transcript_rejected_witness :
  @get_transcript_with_ytdlp plain_runtime
    (Some (fixed_ytdlp english_manual_info blank_captions)) "abc123" =
  Error (Exception
           "Failed to fetch transcript with yt-dlp: Transcript extracted but empty").
Proof.
  exact (proj1 (proj2 (@empty_transcript_rejected plain_runtime
                         (Some (fixed_ytdlp english_manual_info blank_captions))
                         "abc123"))
           (fixed_ytdlp english_manual_info blank_captions) english_manual_info
           "https://example.org/en.json3" blank_captions
           eq_refl eq_refl eq_refl eq_refl eq_refl).
Defined.

(** * The prompts *)

Section Truncation.

Lemma slice_to_kept (limit : nat) (input kept : string) :
  truncated_to limit input kept -> slice_to limit input = kept.
Proof.
  unfold slice_to. intros [[Hle ->] | (beyond & -> & <-)].
  - now apply take_all.
  - apply take_append_exact.
Qed.

Lemma truncated_to_total (limit : nat) (input : string) :
  truncated_to limit input (slice_to limit input).
Proof.
  unfold slice_to.
  destruct (le_lt_dec (String.length input) limit) as [Hle | Hlt].
  - left. split; [exact Hle | now apply take_all].
  - right. exists (drop limit input). split; [now rewrite take_drop|].
    rewrite length_take. lia.
Qed.

Lemma slice_to_idem (limit : nat) (input kept : string) :
  truncated_to limit input kept -> slice_to limit kept = kept.
Proof.
  unfold slice_to. intros [[Hle ->] | (beyond & _ & <-)]; apply take_all; lia.
Qed.

Lemma truncated_to_length (limit : nat) (input kept : string) :
  truncated_to limit input kept -> String.length kept <= limit.
Proof. intros [[Hle ->] | (beyond & _ & <-)]; lia. Qed.

End Truncation.

(** * The [/ask] handler *)

Section AskFacts.
Context `{Runtime}.
Variable mistral_client : option mistral.

Lemma ask_json_request (kv : list (string * json)) :
  ask mistral_client (json_request kv) =
  match ask_data mistral_client (JObj kv) with
  | Ok r => r
  | Error e => internal_error_response e
  end.
Proof. reflexivity. Qed.

Lemma ask_data_carries (kv : list (string * json)) (q pc s : json) :
  carries kv q pc s -> ask_data mistral_client (JObj kv) = turn mistral_client q pc s.
Proof.
  intros (Hq & Hpc & Hs).
  unfold ask_data, required_keys, first_missing, not_in, has_key, subscript,
    getitem, get_default.
  rewrite Hq, Hpc, Hs. reflexivity.
Qed.

Lemma ask_carries (kv : list (string * json)) (q pc s : json) :
  carries kv q pc s ->
  ask mistral_client (json_request kv) =
  match turn mistral_client q pc s with
  | Ok r => r
  | Error e => internal_error_response e
  end.
Proof. intros Hc. now rewrite ask_json_request, (ask_data_carries _ _ _ _ Hc). Qed.

Lemma turn_rejected (q pc s : json) (n : Z) :
  py_int pc = Ok n -> (8 <= n)%Z -> turn mistral_client q pc s = Ok limit_response.
Proof.
  intros Hn Hge. unfold turn. rewrite Hn. cbn [bind].
  destruct (Z.geb_spec n 8) as [_ | Hlt]; [reflexivity | lia].
Qed.

Lemma turn_admitted (q pc s : json) (n : Z) :
  py_int pc = Ok n -> (n < 8)%Z ->
  turn mistral_client q pc s =
  match mistral_client with
  | None =>
      Ok {| body := [("success", JBool false);
                     ("error", JStr "Mistral API Key or client initialization failed.")];
            status := 500 |}
  | Some client =>
      prompt <- build_answer_prompt s q ;;
      choices <- chat_complete client MODEL_NAME prompt ;;
      answer <- first_choice choices ;;
      Ok (success_response answer (n + 1))
  end.
Proof.
  intros Hn Hlt. unfold turn. rewrite Hn. cbn [bind].
  destruct (Z.geb_spec n 8) as [Hge | _]; [lia | reflexivity].
Qed.

Lemma turn_admitted_status (q pc s : json) (n : Z) :
  py_int pc = Ok n -> (n < 8)%Z ->
  status (match turn mistral_client q pc s with
          | Ok r => r
          | Error e => internal_error_response e
          end) <> 400.
Proof.
  intros Hn Hlt. rewrite (turn_admitted _ _ _ _ Hn Hlt).
  destruct mistral_client as [client|]; [|cbn; discriminate].
  destruct (build_answer_prompt s q) as [prompt|e]; [|cbn; discriminate].
  cbn [bind].
  destruct (chat_complete client MODEL_NAME prompt) as [[|answer rest]|e];
    cbn; discriminate.
Qed.

Lemma turn_success (client : mistral) (q pc s : json) (n : Z)
      (prompt answer : string) (rest : list string) :
  mistral_client = Some client ->
  py_int pc = Ok n -> (n < 8)%Z ->
  build_answer_prompt s q = Ok prompt ->
  chat_complete client MODEL_NAME prompt = Ok (answer :: rest) ->
  turn mistral_client q pc s = Ok (success_response answer (n + 1)).
Proof.
  intros Hc Hn Hlt Hp Ha. rewrite (turn_admitted _ _ _ _ Hn Hlt), Hc, Hp.
  cbn [bind]. now rewrite Ha.
Qed.

End AskFacts.

(** C4.  The summary prompt is the instruction text followed by the
    transcript cut at 10,000 characters; the answer prompt carries the summary
    cut at 2,500 and the question cut at 500.  An input within its limit is
    kept whole; of a longer one exactly the first [limit] characters are kept
    and what lies beyond has no influence: [summarize_transcript] and the
    [/ask] handler answer as they do on the kept parts alone. *)
Theorem prompt_truncation (transcript summary question kt ks kq : string) :
  truncated_to 10000 transcript kt ->
  truncated_to 2500 summary ks ->
  truncated_to 500 question kq ->
  summary_prompt transcript = SUMMARY_INSTRUCTIONS ++ kt /\
  answer_prompt summary question =
    ANSWER_INSTRUCTIONS ++ "Summary: " ++ ks ++ newline ++ "Question: " ++ kq /\
  (String.length kt <= 10000 /\ String.length ks <= 2500 /\
   String.length kq <= 500) /\
  (forall (rt : Runtime) (mistral_client : option mistral),
      @build_answer_prompt rt (JStr summary) (JStr question) =
        Ok (answer_prompt summary question) /\
      summarize_transcript mistral_client transcript =
        summarize_transcript mistral_client kt /\
      forall prompt_count,
        ask mistral_client
          (json_request [("question", JStr question); ("prompt_count", prompt_count);
                         ("summary", JStr summary)]) =
        ask mistral_client
          (json_request [("question", JStr kq); ("prompt_count", prompt_count);
                         ("summary", JStr ks)])).
Proof.
  intros Ht Hs Hq.
  assert (Ps : summary_prompt transcript = SUMMARY_INSTRUCTIONS ++ kt)
    by (unfold summary_prompt; now rewrite (slice_to_kept _ _ _ Ht)).
  split; [exact Ps|]. split; [|split].
  - unfold answer_prompt, answer_prompt_text.
    now rewrite (slice_to_kept _ _ _ Hs), (slice_to_kept _ _ _ Hq).
  - split; [|split]; eapply truncated_to_length; eassumption.
  - intros rt mistral_client. split; [reflexivity|]. split.
    + unfold summarize_transcript. rewrite Ps. unfold summary_prompt.
      now rewrite (slice_to_idem _ _ _ Ht).
    + intros prompt_count.
      rewrite (ask_carries mistral_client _ (JStr question) prompt_count (JStr summary))
        by (repeat split).
      rewrite (ask_carries mistral_client _ (JStr kq) prompt_count (JStr ks))
        by (repeat split).
      unfold turn, build_answer_prompt, slice_value. cbn [bind format].
      now rewrite (slice_to_kept _ _ _ Hs), (slice_to_kept _ _ _ Hq),
        (slice_to_idem _ _ _ Hs), (slice_to_idem _ _ _ Hq).
Qed.

(** The theorem above on a transcript of 10,003 characters, a summary of
    2,500 and a short question. *)
Lemma prompt_truncation_witness :
  summary_prompt (replicate 10000 "a" ++ "XYZ") =
    SUMMARY_INSTRUCTIONS ++ replicate 10000 "a" /\
  answer_prompt (replicate 2500 "s") "Why?" =
    ANSWER_INSTRUCTIONS ++ "Summary: " ++ replicate 2500 "s" ++ newline
    ++ "Question: " ++ "Why?".
Proof.
  assert (Ht : truncated_to 10000 (replicate 10000 "a" ++ "XYZ") (replicate 10000 "a")).
  { right. exists "XYZ". split; [reflexivity | vm_compute; reflexivity]. }
  assert (Hs : truncated_to 2500 (replicate 2500 "s") (replicate 2500 "s")).
  { left. split; [vm_compute; repeat constructor | reflexivity]. }
  assert (Hq : truncated_to 500 "Why?" "Why?").
  { left. split; [vm_compute; repeat constructor | reflexivity]. }
  destruct (prompt_truncation _ _ _ _ _ _ Ht Hs Hq) as (P1 & P2 & _).
  split; [exact P1 | exact P2].
Defined.

(** C5.  With the three fields present and an integer counter: at 8 and
    above the handler answers with the max-limit rejection, which carries no
    counter at all (so none that was incremented); from 0 to 7 it does not
    reject, and when the model call then succeeds the response carries
    exactly the counter plus one. *)
Theorem conversation_gate `{Runtime} (mistral_client : option mistral)
    (kv : list (string * json)) (question summary : json) (promptCount : Z) :
  carries kv question (JInt promptCount) summary ->
  ((8 <= promptCount)%Z ->
   ask mistral_client (json_request kv) = limit_response /\
   lookup "prompt_count" (body (ask mistral_client (json_request kv))) = None) /\
  ((0 <= promptCount <= 7)%Z ->
   ask mistral_client (json_request kv) <> limit_response /\
   forall client prompt answer rest,
     mistral_client = Some client ->
     build_answer_prompt summary question = Ok prompt ->
     chat_complete client MODEL_NAME prompt = Ok (answer :: rest) ->
     ask mistral_client (json_request kv) =
       success_response answer (promptCount + 1) /\
     lookup "prompt_count" (body (ask mistral_client (json_request kv))) =
       Some (JInt (promptCount + 1))).
Proof.
  intros Hc. rewrite (ask_carries _ _ _ _ _ Hc). split.
  - intros Hge.
    now rewrite (turn_rejected mistral_client question (JInt promptCount) summary
                   promptCount eq_refl Hge).
  - intros [_ Hle]. assert (Hlt : (promptCount < 8)%Z) by lia. split.
    + intros Heq.
      apply (turn_admitted_status mistral_client question (JInt promptCount)
               summary promptCount eq_refl Hlt).
      now rewrite Heq.
    + intros client prompt answer rest Hcl Hp Ha.
      now rewrite (turn_success mistral_client client question (JInt promptCount)
                     summary promptCount prompt answer rest Hcl eq_refl Hlt Hp Ha).
Qed.

(** The theorem above on the last admitted turn, counter 7, with a client
    that echoes the prompt. *)
Lemma conversation_gate_witness :
  @ask plain_runtime (Some echo_client) (turn_request (JInt 7)) =
  success_response (answer_prompt "A talk." "Why?") 8.
Proof.
  refine (proj1 (proj2 (proj2
            (@conversation_gate plain_runtime (Some echo_client) _
               (JStr "Why?") (JStr "A talk.") 7 _) _)
            echo_client (answer_prompt "A talk." "Why?")
            (answer_prompt "A talk." "Why?") [] eq_refl eq_refl eq_refl)).
  - repeat split.
  - lia.
Defined.

(** C7, as the code has it.  When the counter converts to 8 (and the three
    fields are present), the response is 400 with the body
    [{"success": false, "error": "Max prompt limit reached"}], whatever the
    state of the client; the body has no [prompt_count] field. *)
Theorem limit_reached_at_eight `{Runtime} (mistral_client : option mistral)
    (kv : list (string * json)) (question prompt_count summary : json) :
  carries kv question prompt_count summary ->
  py_int prompt_count = Ok 8%Z ->
  ask mistral_client (json_request kv) = limit_response /\
  status (ask mistral_client (json_request kv)) = 400 /\
  body (ask mistral_client (json_request kv)) =
    [("success", JBool false); ("error", JStr "Max prompt limit reached")] /\
  lookup "prompt_count" (body (ask mistral_client (json_request kv))) = None.
Proof.
  intros Hc Hn. rewrite (ask_carries _ _ _ _ _ Hc).
  rewrite (turn_rejected _ _ _ _ 8%Z Hn); [|lia]. repeat split.
Qed.

(** The theorem above on a request with [prompt_count: 8]. *)
Lemma limit_reached_at_eight_witness :
  @ask plain_runtime (Some echo_client) (turn_request (JInt 8)) = limit_response.
Proof.
  refine (proj1 (@limit_reached_at_eight plain_runtime (Some echo_client) _
                   (JStr "Why?") (JInt 8) (JStr "A talk.") _ eq_refl)).
  repeat split.
Defined.

(** C7 as stated fails: the response to [prompt_count: 8] is the 400
    rejection, and no [prompt_count] value, 8 or other, is in it. *)
Lemma limit_response_has_no_prompt_count :
  status (@ask plain_runtime (Some echo_client) (turn_request (JInt 8))) = 400 /\
  lookup "prompt_count"
    (body (@ask plain_runtime (Some echo_client) (turn_request (JInt 8)))) = None /\
  lookup "prompt_count"
    (body (@ask plain_runtime (Some echo_client) (turn_request (JInt 8))))
    <> Some (JInt 8).
Proof. repeat split. discriminate. Qed.

(** C10.  Every integer counter below 8, negative ones included, is
    admitted: the rejection is not sent, whatever the state of the client, and
    when the model call succeeds the client receives the counter plus one. *)
Theorem turn_limit_has_no_lower_bound `{Runtime} (mistral_client : option mistral)
    (kv : list (string * json)) (question summary : json) (prompt_count : Z) :
  carries kv question (JInt prompt_count) summary ->
  (prompt_count < 8)%Z ->
  ask mistral_client (json_request kv) <> limit_response /\
  status (ask mistral_client (json_request kv)) <> 400 /\
  forall client prompt answer rest,
    mistral_client = Some client ->
    build_answer_prompt summary question = Ok prompt ->
    chat_complete client MODEL_NAME prompt = Ok (answer :: rest) ->
    ask mistral_client (json_request kv) =
      success_response answer (prompt_count + 1).
Proof.
  intros Hc Hlt. rewrite (ask_carries _ _ _ _ _ Hc).
  pose proof (turn_admitted_status mistral_client question (JInt prompt_count)
                summary prompt_count eq_refl Hlt) as Hst.
  split; [|split].
  - intros Heq. apply Hst. now rewrite Heq.
  - exact Hst.
  - intros client prompt answer rest Hcl Hp Ha.
    now rewrite (turn_success mistral_client client question (JInt prompt_count)
                   summary prompt_count prompt answer rest Hcl eq_refl Hlt Hp Ha).
Qed.

(** The theorem above on the counter -1000. *)
Lemma turn_limit_has_no_lower_bound_witness :
  @ask plain_runtime (Some echo_client) (turn_request (JInt (-1000))) =
  success_response (answer_prompt "A talk." "Why?") (-999).
Proof.
  refine (proj2 (proj2 (@turn_limit_has_no_lower_bound plain_runtime
                          (Some echo_client) _ (JStr "Why?") (JStr "A talk.")
                          (-1000) _ _))
            echo_client (answer_prompt "A talk." "Why?")
            (answer_prompt "A talk." "Why?") [] eq_refl eq_refl eq_refl).
  - repeat split.
  - lia.
Defined.

Section Envelopes.
Context `{Runtime}.
Variable mistral_client : option mistral.

Lemma first_missing_reported (kv : list (string * json)) (k : string) :
  first_missing required_keys (JObj kv) = Ok (Some k) ->
  In k required_keys /\ lookup k kv = None /\
  ask mistral_client (json_request kv) =
    {| body := [("error", JStr (k ++ " is required."))]; status := 400 |}.
Proof.
  intros Hm. rewrite ask_json_request. unfold ask_data. rewrite Hm. cbn [bind].
  split; [|split; [|reflexivity]];
    revert Hm; unfold required_keys, first_missing, not_in, has_key; cbn [bind];
    destruct (lookup "question" kv) eqn:Hq; cbn [negb];
    try (intros [= <-]; cbn; now auto);
    destruct (lookup "prompt_count" kv) eqn:Hpc; cbn [negb];
    try (intros [= <-]; cbn; now auto);
    destruct (lookup "summary" kv) eqn:Hs; cbn [negb];
    try (intros [= <-]; cbn; now auto);
    discriminate.
Qed.

Lemma some_key_missing (kv : list (string * json)) (k : string) :
  In k required_keys -> lookup k kv = None ->
  exists k', first_missing required_keys (JObj kv) = Ok (Some k').
Proof.
  unfold required_keys, first_missing, not_in, has_key; cbn [bind In].
  intros Hin Hk.
  destruct (lookup "question" kv) eqn:Hq; cbn [negb]; [|now eexists].
  destruct (lookup "prompt_count" kv) eqn:Hpc; cbn [negb]; [|now eexists].
  destruct (lookup "summary" kv) eqn:Hs; cbn [negb]; [|now eexists].
  destruct Hin as [<- | [<- | [<- | []]]]; congruence.
Qed.

End Envelopes.

(** C8.  On [/ask]: whenever a required key is missing from the JSON object,
    the response is 400 with the body [{"error": "<key> is required."}] for a
    missing key (with [question] and [prompt_count] present and [summary]
    missing, exactly [{"error": "summary is required."}]); a request that is
    not JSON, a body that parsed to null, a parse failure and every exception
    raised in the handler give a body of the keys [verification] (false) and
    [error]; the two shapes differ. *)
Theorem ask_error_envelopes `{Runtime} (mistral_client : option mistral) :
  (forall kv k,
      In k required_keys -> lookup k kv = None ->
      exists k',
        In k' required_keys /\ lookup k' kv = None /\
        ask mistral_client (json_request kv) =
          {| body := [("error", JStr (k' ++ " is required."))]; status := 400 |} /\
        shape (ask mistral_client (json_request kv)) = ["error"]) /\
  (forall kv q pc,
      lookup "question" kv = Some q -> lookup "prompt_count" kv = Some pc ->
      lookup "summary" kv = None ->
      ask mistral_client (json_request kv) =
        {| body := [("error", JStr "summary is required.")]; status := 400 |}) /\
  (forall data k,
      data <> JNull -> first_missing required_keys data = Ok (Some k) ->
      ask mistral_client {| is_json := true; get_json := Ok data |} =
        {| body := [("error", JStr (k ++ " is required."))]; status := 400 |}) /\
  (forall e,
      ask mistral_client {| is_json := true; get_json := Error e |} =
        internal_error_response e) /\
  (forall req e,
      ask_try mistral_client req = Error e ->
      ask mistral_client req = internal_error_response e /\
      status (ask mistral_client req) = 500 /\
      shape (ask mistral_client req) = ["verification"; "error"] /\
      lookup "verification" (body (ask mistral_client req)) = Some (JBool false)) /\
  (forall parsed,
      ask mistral_client {| is_json := false; get_json := parsed |} =
        {| body := [("verification", JBool false); ("error", JStr "JSON not available.")];
           status := 400 |}) /\
  ask mistral_client {| is_json := true; get_json := Ok JNull |} =
    {| body := [("verification", JBool false); ("error", JStr "Request failed.")];
       status := 400 |} /\
  ["error"] <> ["verification"; "error"].
Proof.
  split; [|split; [|split; [|split; [|split; [|split; [|split]]]]]].
  - intros kv k Hin Hk.
    destruct (some_key_missing kv k Hin Hk) as (k' & Hm).
    destruct (first_missing_reported mistral_client kv k' Hm) as (Hin' & Hk' & Ha).
    exists k'. rewrite Ha. repeat split; assumption.
  - intros kv q pc Hq Hpc Hs.
    apply (first_missing_reported mistral_client kv "summary").
    unfold required_keys, first_missing, not_in, has_key.
    now rewrite Hq, Hpc, Hs.
  - intros data k Hnull Hm. unfold ask, ask_try. cbn [is_json get_json negb bind].
    destruct data; try congruence; unfold ask_data; now rewrite Hm.
  - reflexivity.
  - intros req e He. unfold ask. rewrite He. repeat split.
  - reflexivity.
  - reflexivity.
  - discriminate.
Qed.

(** The theorem above on a request without the [summary] key. *)
Lemma ask_error_envelopes_witness :
  @ask plain_runtime (Some echo_client)
    (json_request [("question", JStr "Why?"); ("prompt_count", JInt 0)]) =
  {| body := [("error", JStr "summary is required.")]; status := 400 |}.
Proof.
  exact (proj1 (proj2 (@ask_error_envelopes plain_runtime (Some echo_client)))
           [("question", JStr "Why?"); ("prompt_count", JInt 0)]
           (JStr "Why?") (JInt 0) eq_refl eq_refl eq_refl).
Defined.

Section Conversion.
Context `{Runtime}.

Lemma one_digit_accepted :
  ((int_max_str_digits =? 0) || (1 <=? int_max_str_digits))%nat = true.
Proof. destruct int_max_str_digits; reflexivity. Qed.

Lemma int_of_seven : py_int (JStr "7") = Ok 7%Z.
Proof.
  unfold py_int, int_of_string, unsigned_literal.
  cbn -[Nat.eqb Nat.leb int_max_str_digits]. now rewrite one_digit_accepted.
Qed.

End Conversion.

(** C9.  With the three fields present: when [int()] raises on the value of
    [prompt_count], the response is the 500 internal-error envelope and not a
    400; when it converts, the handler behaves as for that integer.  [int()]
    raises on the string [five] and on null, and converts the string [7]
    to 7. *)
Theorem prompt_count_conversion `{Runtime} (mistral_client : option mistral)
    (kv : list (string * json)) (question prompt_count summary : json) :
  carries kv question prompt_count summary ->
  (forall e,
      py_int prompt_count = Error e ->
      ask mistral_client (json_request kv) = internal_error_response e /\
      status (ask mistral_client (json_request kv)) = 500 /\
      shape (ask mistral_client (json_request kv)) = ["verification"; "error"]) /\
  (forall n,
      py_int prompt_count = Ok n ->
      ask mistral_client (json_request kv) =
      ask mistral_client
        (json_request [("question", question); ("prompt_count", JInt n);
                       ("summary", summary)])) /\
  py_int (JStr "five") = Error (Builtin (IntValueError "five")) /\
  py_int JNull = Error (Builtin (IntTypeError JNull)) /\
  py_int (JStr "7") = Ok 7%Z.
Proof.
  intros Hc. rewrite (ask_carries _ _ _ _ _ Hc).
  split; [|split; [|split; [|split]]].
  - intros e He. unfold turn. rewrite He. repeat split.
  - intros n Hn.
    rewrite (ask_carries mistral_client _ question (JInt n) summary)
      by (repeat split).
    unfold turn. now rewrite Hn.
  - reflexivity.
  - reflexivity.
  - apply int_of_seven.
Qed.

(** The theorem above on [prompt_count: "five"]. *)
Lemma prompt_count_conversion_witness :
  @ask plain_runtime (Some echo_client) (turn_request (JStr "five")) =
  @internal_error_response plain_runtime (Builtin (IntValueError "five")).
Proof.
  refine (proj1 (proj1 (@prompt_count_conversion plain_runtime (Some echo_client) _
                          (JStr "Why?") (JStr "five") (JStr "A talk.") _)
                   (Builtin (IntValueError "five")) eq_refl)).
  repeat split.
Defined.

(** * Further properties of [get_video_id] *)

Section VideoIdMore.

Lemma get_video_id_some (url id : string) :
  get_video_id url = Some id <->
  exists p, occurs_at url p id /\ forall q id', occurs_at url q id' -> p <= q.
Proof.
  unfold get_video_id. destruct url as [|c url]; cbn [nonempty negb].
  - split; [discriminate|].
    intros (p & Hoc & _). apply occurs_at_bound in Hoc. cbn in Hoc. lia.
  - apply re_search_some.
Qed.

Lemma occurs_at_inside (url tail : string) (q : nat) (id : string) :
  occurs_at (url ++ tail) q id -> q < String.length url ->
  exists id', occurs_at url q id'.
Proof.
  intros (pre & m & rest & E & Hm & L & Hne & A & _) Hq.
  assert (Eu : url = (pre ++ m) ++ drop q url).
  { rewrite <- (take_drop q url) at 1. f_equal.
    rewrite <- (take_append_le q url tail) by lia.
    rewrite E, <- append_assoc, <- L, <- length_append.
    apply take_append_exact. }
  assert (Et : drop q url ++ tail = id ++ rest).
  { rewrite Eu, append_assoc, <- (append_assoc pre m) in E.
    apply append_split in E as [_ E]; [exact E | reflexivity]. }
  destruct (drop q url) as [|c u] eqn:D.
  - assert (String.length url = String.length (pre ++ m)) as Hl
        by (rewrite Eu at 1; now rewrite append_empty_r).
    rewrite length_append in Hl. lia.
  - destruct id as [|d id]; [congruence|].
    cbn in Et. injection Et as -> _.
    cbn in A. apply andb_true_iff in A as [Ad _].
    destruct (class_run_split (String d u)) as (rest' & Er & St).
    exists (class_run (String d u)), pre, m, rest'.
    split; [rewrite Eu at 1; now rewrite append_assoc, <- Er|].
    split; [exact Hm|]. split; [exact L|].
    split; [cbn; rewrite Ad; discriminate|].
    split; [apply class_run_all | exact St].
Qed.

Lemma occurs_at_append (url tail : string) (p : nat) (id : string) :
  occurs_at url p id -> stops tail -> occurs_at (url ++ tail) p id.
Proof.
  intros (pre & m & rest & -> & Hm & L & Hne & A & St) Ht.
  exists pre, m, (rest ++ tail).
  split; [now rewrite !append_assoc|]. repeat (split; try assumption).
  destruct rest; [exact Ht | exact St].
Qed.

End VideoIdMore.

(** X1.  What follows the identifier does not change it: when the extractor
    finds [id] in [url], it finds the same [id] in [url] followed by any text
    that does not begin with a word character or a hyphen (further query
    parameters, a fragment, a blank). *)
Theorem get_video_id_trailing_text (url tail id : string) :
  get_video_id url = Some id ->
  stops tail ->
  get_video_id (url ++ tail) = Some id.
Proof.
  intros Hid Ht. apply get_video_id_some in Hid as (p & Hoc & Hmin).
  apply get_video_id_some. exists p. split; [now apply occurs_at_append|].
  intros q id' Hq. destruct (le_lt_dec p q) as [|Hlt]; [assumption|].
  pose proof (occurs_at_bound _ _ _ Hoc) as Hp.
  destruct (occurs_at_inside url tail q id' Hq) as (id'' & Hq'); [lia|].
  apply Hmin in Hq'. lia.
Qed.

(** The theorem above on a watch link followed by a time parameter. *)
Lemma get_video_id_trailing_text_witness :
  get_video_id ("https://www.youtube.com/watch?v=dQw4w9WgXcQ" ++ "&t=42s") =
  Some "dQw4w9WgXcQ".
Proof.
  apply (get_video_id_trailing_text
           "https://www.youtube.com/watch?v=dQw4w9WgXcQ" "&t=42s" "dQw4w9WgXcQ").
  - vm_compute. reflexivity.
  - vm_compute. reflexivity.
Defined.

Section WatchUrl.

Lemma watch_url_first_match (tail : string) (q : nat) (m : string) :
  match_at ("https://www.youtube.com/watch?v=" ++ tail) q = Some m -> 32 <= q.
Proof.
  intros Hq. destruct (le_lt_dec 32 q) as [|Hlt]; [assumption|]. exfalso.
  do 32 (destruct q as [|q]; [vm_compute in Hq; discriminate|]). lia.
Qed.

Lemma short_url_first_match (tail : string) (q : nat) (m : string) :
  match_at ("https://youtu.be/" ++ tail) q = Some m -> 17 <= q.
Proof.
  intros Hq. destruct (le_lt_dec 17 q) as [|Hlt]; [assumption|]. exfalso.
  do 17 (destruct q as [|q]; [vm_compute in Hq; discriminate|]). lia.
Qed.

End WatchUrl.

(** X2.  The two canonical link forms give back the identifier they were
    built from: for a non-empty [id] of word characters and hyphens, followed
    by nothing or by text that does not continue it, the extractor returns
    [id] from the watch link (the very URL line 64 builds for the provider)
    and from the short link. *)
Theorem get_video_id_canonical_links (id rest : string) :
  id <> "" ->
  all_chars id_char id = true ->
  stops rest ->
  get_video_id ("https://www.youtube.com/watch?v=" ++ id ++ rest) = Some id /\
  get_video_id ("https://youtu.be/" ++ id ++ rest) = Some id.
Proof.
  intros Hne A St. split; apply get_video_id_some.
  - exists 32. split.
    + exists "https://www.youtube.com/watch?", "v=", rest.
      repeat split; auto. now left.
    + intros q id' Hq. apply match_at_occurs in Hq.
      now apply watch_url_first_match in Hq.
  - exists 17. split.
    + exists "https://", "youtu.be/", rest.
      repeat split; auto. now right.
    + intros q id' Hq. apply match_at_occurs in Hq.
      now apply short_url_first_match in Hq.
Qed.

(** The theorem above on an eleven-character identifier and a parameter. *)
Lemma get_video_id_canonical_links_witness :
  get_video_id ("https://www.youtube.com/watch?v=" ++ "dQw4w9WgXcQ" ++ "&t=1") =
    Some "dQw4w9WgXcQ" /\
  get_video_id ("https://youtu.be/" ++ "dQw4w9WgXcQ" ++ "&t=1") =
    Some "dQw4w9WgXcQ".
Proof.
  apply (get_video_id_canonical_links "dQw4w9WgXcQ" "&t=1").
  - discriminate.
  - vm_compute. reflexivity.
  - vm_compute. reflexivity.
Defined.

(** X3.  An identifier the extractor returns is never empty, consists of
    word characters and hyphens only, is a piece of the URL it came from,
    and survives the round trip through the provider URL of line 64:
    extracting from that URL gives the same identifier. *)
Theorem get_video_id_result (url id : string) :
  get_video_id url = Some id ->
  id <> "" /\
  all_chars id_char id = true /\
  (exists before after, url = before ++ id ++ after) /\
  get_video_id ("https://www.youtube.com/watch?v=" ++ id) = Some id.
Proof.
  intros Hid.
  apply get_video_id_some in Hid as (p & (pre & m & rest & E & _ & _ & Hne & A & _) & _).
  split; [exact Hne|]. split; [exact A|]. split.
  - exists (pre ++ m), rest. now rewrite append_assoc.
  - rewrite <- (append_empty_r id) at 1.
    apply get_video_id_some. exists 32. split.
    + exists "https://www.youtube.com/watch?", "v=", "".
      repeat split; auto. now left.
    + intros q id' Hq. apply match_at_occurs in Hq.
      now apply watch_url_first_match in Hq.
Qed.

(** The theorem above on a short link. *)
Lemma get_video_id_result_witness :
  get_video_id ("https://www.youtube.com/watch?v=" ++ "abc-DEF_123") =
  Some "abc-DEF_123".
Proof.
  apply (get_video_id_result "https://youtu.be/abc-DEF_123?t=3" "abc-DEF_123").
  vm_compute. reflexivity.
Defined.

(** * Further properties of the transcript fetch *)

Section ChoiceFacts.

Lemma has_key_getitem {A : Type} (k : string) (d : list (string * A)) :
  has_key k d = true -> exists v, getitem k d = Ok v.
Proof.
  unfold has_key, getitem. destruct (lookup k d) as [v|]; [|discriminate].
  intros _. now exists v.
Qed.

Lemma first_track_url_error (tracks : list track) (e : exn) :
  first_track_url tracks = Error e ->
  e = Builtin IndexError \/ e = Builtin (KeyError "url").
Proof.
  unfold first_track_url. destruct tracks as [|t rest].
  - intros [= <-]. now left.
  - destruct (url t); [discriminate|]. intros [= <-]. now right.
Qed.

Lemma choose_subtitle_url_error (info : video_info) (e : exn) :
  choose_subtitle_url info = Error e ->
  e = Exception "No captions available for this video" \/
  e = Builtin IndexError \/ e = Builtin (KeyError "url").
Proof.
  unfold choose_subtitle_url.
  destruct (present_and_truthy (subtitles info)) eqn:Ps.
  - destruct (subtitles info) as [[|[l ts] subs]|]; try discriminate.
    destruct (has_key "en" ((l, ts) :: subs)) eqn:Hen.
    + destruct (has_key_getitem _ _ Hen) as (tracks & ->). cbn [bind].
      intros He. right. now apply first_track_url_error in He.
    + cbn [map fst]. unfold getitem. rewrite lookup_head. cbn [bind].
      intros He. right. now apply first_track_url_error in He.
  - destruct (present_and_truthy (automatic_captions info)).
    + destruct (has_key "en" _) eqn:Hen; [|discriminate].
      destruct (has_key_getitem _ _ Hen) as (tracks & ->). cbn [bind].
      intros He. right. now apply first_track_url_error in He.
    + intros [= <-]. now left.
Qed.

End ChoiceFacts.

(** X4.  Manual captions shadow automatic ones completely: as soon as the
    manual collection is non-empty, the outcome of the selection, a URL or
    an error, does not depend on the automatic collection.  So a manual
    English entry with an empty track list fails the fetch even when
    automatic English captions exist. *)
Theorem manual_captions_shadow_automatic
    (subs : captions) (autos autos' : option captions) :
  subs <> [] ->
  choose_subtitle_url {| subtitles := Some subs; automatic_captions := autos |} =
  choose_subtitle_url {| subtitles := Some subs; automatic_captions := autos' |} /\
  (lookup "en" subs = Some [] ->
   choose_subtitle_url {| subtitles := Some subs; automatic_captions := autos |} =
   Error (Builtin IndexError)).
Proof.
  intros Hne. destruct subs as [|[l ts] subs]; [congruence|]. split.
  - reflexivity.
  - intros Hen. unfold choose_subtitle_url, has_key, getitem.
    cbn [subtitles present_and_truthy]. now rewrite Hen.
Qed.

(** The theorem above: an empty manual English list beside usable automatic
    English captions. *)
Lemma manual_captions_shadow_automatic_witness :
  choose_subtitle_url empty_english_info = Error (Builtin IndexError).
Proof.
  refine (proj2 (manual_captions_shadow_automatic [("en", [])]
                   (automatic_captions empty_english_info) None _) eq_refl).
  discriminate.
Defined.

Section FetchFacts.
Context `{Runtime}.

Lemma fetch_transcript_error (ydl : ytdlp) (video_id : string) (e : exn) :
  fetch_transcript ydl video_id = Error e ->
  fetch_failure_text ydl video_id (str e).
Proof.
  intros F. unfold fetch_failure_text. unfold fetch_transcript in F.
  destruct (extract_info ydl _) as [info|e0] eqn:Hi; cbn [bind] in F.
  2: { injection F as <-. left. now exists e0. }
  destruct (choose_subtitle_url info) as [u|e1] eqn:Hc; cbn [bind] in F.
  2: { injection F as <-.
       destruct (choose_subtitle_url_error _ _ Hc) as [-> | [-> | ->]]; cbn [str].
       - right; left; now left.
       - right; right; now left.
       - right; right; right; now left. }
  destruct (require_subtitle_url u) as [subtitle_url|e2] eqn:Hr; cbn [bind] in F.
  2: { injection F as <-. right; left. right.
       unfold require_subtitle_url in Hr.
       destruct u as [u'|]; [destruct (nonempty u')|]; try discriminate;
         now injection Hr as <-. }
  destruct (open_captions ydl subtitle_url) as [subs|e3] eqn:Ho; cbn [bind] in F.
  2: { injection F as <-. do 4 right. left. now exists subtitle_url, e3. }
  unfold checked_transcript in F.
  destruct (negb (nonempty (strip (transcript_text subs)))); [|discriminate].
  injection F as <-. now do 5 right.
Qed.


End FetchFacts.



(** X6.  The fetch succeeds in exactly one way: the provider returns the
    metadata, the selection yields a non-empty URL, the download of that URL
    yields a document, and the flattened text of the document, which is what
    is returned, has a character that is not white space. *)
Theorem get_transcript_success `{Runtime}
    (ydl : ytdlp) (video_id text : string) :
  get_transcript_with_ytdlp (Some ydl) video_id = Ok text <->
  exists info subtitle_url subs,
    extract_info ydl ("https://www.youtube.com/watch?v=" ++ video_id) = Ok info /\
    choose_subtitle_url info = Ok (Some subtitle_url) /\
    subtitle_url <> "" /\
    open_captions ydl subtitle_url = Ok subs /\
    text = transcript_text subs /\
    all_chars isspace text = false.
Proof.
  unfold get_transcript_with_ytdlp. split.
  - destruct (fetch_transcript ydl video_id) as [t|e] eqn:F; [|discriminate].
    intros [= ->]. unfold fetch_transcript in F.
    apply bind_ok in F as (info & Hi & F).
    apply bind_ok in F as (u & Hc & F).
    apply bind_ok in F as (subtitle_url & Hr & F).
    apply bind_ok in F as (subs & Ho & F).
    apply checked_transcript_ok in F as [-> Hne].
    unfold require_subtitle_url in Hr.
    destruct u as [u'|]; [|discriminate].
    destruct (nonempty u') eqn:Hu; [|discriminate]. injection Hr as ->.
    exists info, subtitle_url, subs. repeat split; auto.
    + now apply nonempty_true.
    + destruct (all_chars isspace (transcript_text subs)) eqn:A; [|reflexivity].
      apply strip_empty in A. contradiction.
  - intros (info & subtitle_url & subs & Hi & Hc & Hu & Ho & -> & A).
    unfold fetch_transcript. rewrite Hi. cbn [bind]. rewrite Hc.
    cbn [bind require_subtitle_url].
    apply nonempty_true in Hu. rewrite Hu. cbn [bind]. rewrite Ho. cbn [bind].
    unfold checked_transcript.
    destruct (nonempty (strip (transcript_text subs))) eqn:E; [reflexivity|].
    apply nonempty_false, strip_empty in E. congruence.
Qed.

(** The theorem above on the example payload behind English manual
    captions. *)
Lemma get_transcript_success_witness :
  @get_transcript_with_ytdlp plain_runtime
    (Some (fixed_ytdlp english_manual_info example_captions)) "abc123" = Ok "a b".
Proof.
  apply (proj2 (@get_transcript_success plain_runtime
                  (fixed_ytdlp english_manual_info example_captions)
                  "abc123" "a b")).
  exists english_manual_info, "https://example.org/en.json3", example_captions.
  repeat split. discriminate.
Defined.

Section Blank.



End Blank.



(** * [summarize_transcript] and the [/summarize] handler *)

Section SummarizeFacts.
Context `{Runtime}.

Lemma summarize_transcript_true (mistral_client : option mistral)
    (transcript msg : string) :
  summarize_transcript mistral_client transcript = (msg, true) <->
  exists client rest,
    mistral_client = Some client /\
    chat_complete client MODEL_NAME (summary_prompt transcript) = Ok (msg :: rest).
Proof.
  unfold summarize_transcript. split.
  - destruct mistral_client as [client|]; [|discriminate].
    destruct (chat_complete client MODEL_NAME (summary_prompt transcript))
      as [[|c rest]|e] eqn:Hc; cbn [bind first_choice]; try discriminate.
    intros [= ->]. now exists client, rest.
  - intros (client & rest & -> & ->). reflexivity.
Qed.

Lemma summarize_transcript_false (mistral_client : option mistral)
    (transcript msg : string) :
  summarize_transcript mistral_client transcript = (msg, false) <->
  (mistral_client = None /\
   msg = "Mistral client unavailable. Check API key or imports.") \/
  exists client e,
    mistral_client = Some client /\
    (choices <- chat_complete client MODEL_NAME (summary_prompt transcript) ;;
     first_choice choices) = Error e /\
    msg = "Mistral API Error: " ++ str e.
Proof.
  unfold summarize_transcript. split.
  - destruct mistral_client as [client|].
    + destruct (choices <- chat_complete client MODEL_NAME (summary_prompt transcript) ;;
                first_choice choices) as [c|e] eqn:Hc; [discriminate|].
      intros [= <-]. right. now exists client, e.
    + intros [= <-]. now left.
  - intros [[-> ->] | (client & e & -> & -> & ->)]; reflexivity.
Qed.

Lemma get_video_id_nonempty (url id : string) :
  get_video_id url = Some id -> nonempty id = true.
Proof.
  intros Hid. apply get_video_id_some in Hid as (p & (pre & m & rest & _ & _ & _ & Hne & _) & _).
  now apply nonempty_true.
Qed.

Lemma summarize_url_some (yt_dlp : option ytdlp) (mistral_client : option mistral)
    (video_url video_id : string) :
  get_video_id video_url = Some video_id ->
  summarize_url yt_dlp mistral_client video_url =
  match get_transcript_with_ytdlp yt_dlp video_id with
  | Ok transcript_text =>
      let (summary, success) := summarize_transcript mistral_client transcript_text in
      if success then summary_response summary else failure summary 500
  | Error e => failure ("Failed to get transcript: " ++ str e) 500
  end.
Proof.
  intros Hid. unfold summarize_url. rewrite Hid.
  now rewrite (get_video_id_nonempty _ _ Hid).
Qed.

Lemma summarize_url_status (yt_dlp : option ytdlp) (mistral_client : option mistral)
    (video_url : string) :
  (get_video_id video_url = None /\
   summarize_url yt_dlp mistral_client video_url = failure "Invalid YouTube Link." 400) \/
  (exists summary,
      summarize_url yt_dlp mistral_client video_url = summary_response summary) \/
  (exists msg, summarize_url yt_dlp mistral_client video_url = failure msg 500).
Proof.
  destruct (get_video_id video_url) as [video_id|] eqn:Hid.
  - right. rewrite (summarize_url_some _ _ _ _ Hid).
    destruct (get_transcript_with_ytdlp yt_dlp video_id) as [text|e].
    + destruct (summarize_transcript mistral_client text) as [summary [|]].
      * left. now exists summary.
      * right. now exists summary.
    + right. eexists. reflexivity.
  - left. split; [reflexivity|]. unfold summarize_url. now rewrite Hid.
Qed.

Lemma read_video_url_object (req : request) (kv : list (string * json)) :
  get_json req = Ok (JObj kv) ->
  read_video_url req =
  match lookup "video_url" kv with
  | Some v => if truthy v then inr v else inl (failure "No URL provided." 400)
  | None => inl (failure "No URL provided." 400)
  end.
Proof.
  intros Hj. unfold read_video_url, get_default. rewrite Hj. cbn [bind].
  destruct (lookup "video_url" kv) as [v|]; [|reflexivity].
  now destruct (truthy v).
Qed.

Lemma read_video_url_other (req : request) :
  (forall kv, get_json req <> Ok (JObj kv)) ->
  read_video_url req = inl (failure "Invalid JSON." 400).
Proof.
  intros Hno. unfold read_video_url, get_default.
  destruct (get_json req) as [[| | | | |kv]|e]; try reflexivity.
  now destruct (Hno kv).
Qed.

Lemma summarize_available (ydl : ytdlp) (client : mistral) (req : request) :
  summarize (Some ydl) (Some client) req =
  match read_video_url req with
  | inl r => Returned r
  | inr (JStr video_url) =>
      Returned (summarize_url (Some ydl) (Some client) video_url)
  | inr video_url => SearchTypeError video_url
  end.
Proof. reflexivity. Qed.

End SummarizeFacts.

(** X8.  [summarize_transcript] reports success exactly when the client is
    configured and its call, on the summary prompt of the transcript, returns
    at least one choice; the text is then the first choice.  It reports
    failure either for lack of a client, with the fixed text, or because the
    call raised or returned no choice, with "Mistral API Error: " followed by
    the text of that exception. *)
Theorem summarize_transcript_outcome `{Runtime}
    (mistral_client : option mistral) (transcript msg : string) :
  (summarize_transcript mistral_client transcript = (msg, true) <->
   exists client rest,
     mistral_client = Some client /\
     chat_complete client MODEL_NAME (summary_prompt transcript) = Ok (msg :: rest)) /\
  (summarize_transcript mistral_client transcript = (msg, false) <->
   (mistral_client = None /\
    msg = "Mistral client unavailable. Check API key or imports.") \/
   exists client e,
     mistral_client = Some client /\
     (choices <- chat_complete client MODEL_NAME (summary_prompt transcript) ;;
      first_choice choices) = Error e /\
     msg = "Mistral API Error: " ++ str e).
Proof.
  split; [apply summarize_transcript_true | apply summarize_transcript_false].
Qed.

(** The theorem above on a client that returns no choice. *)
Lemma summarize_transcript_outcome_witness :
  @summarize_transcript plain_runtime
    (Some {| chat_complete := fun _ _ => Ok [] |}) "Hello world" =
  ("Mistral API Error: IndexError", false).
Proof.
  apply (proj2 (proj2 (@summarize_transcript_outcome plain_runtime
                         (Some {| chat_complete := fun _ _ => Ok [] |})
                         "Hello world" "Mistral API Error: IndexError"))).
  right. exists {| chat_complete := fun _ _ => Ok [] |}, (Builtin IndexError).
  repeat split.
Defined.

(** X9.  With both services available, [/summarize] answers 400 "Invalid
    JSON." exactly when the body did not parse to a JSON object (the parse
    raised, or gave a list, a string, a number, a boolean or null), and 400
    "No URL provided." exactly when it parsed to an object whose [video_url]
    is missing or falsy (null, false, 0, the empty string, list or object). *)
Theorem summarize_body_validation `{Runtime}
    (ydl : ytdlp) (client : mistral) (req : request) :
  (summarize (Some ydl) (Some client) req = Returned (failure "Invalid JSON." 400) <->
   forall kv, get_json req <> Ok (JObj kv)) /\
  (summarize (Some ydl) (Some client) req = Returned (failure "No URL provided." 400) <->
   exists kv,
     get_json req = Ok (JObj kv) /\
     (lookup "video_url" kv = None \/
      exists v, lookup "video_url" kv = Some v /\ truthy v = false)).
Proof.
  rewrite summarize_available.
  destruct (get_json req) as [data|e] eqn:Hj.
  2: { rewrite read_video_url_other by (rewrite Hj; discriminate).
       split; split; try discriminate; try reflexivity.
       intros (kv & Hkv & _). discriminate. }
  assert (Hobj : (exists kv, data = JObj kv) \/ forall kv, data <> JObj kv).
  { destruct data; try (right; discriminate). left. now eexists. }
  destruct Hobj as [(kv & ->) | Hno].
  - rewrite (read_video_url_object _ _ Hj).
    assert (Hyes : ~ forall kv', Ok (JObj kv) <> Ok (JObj kv'))
      by (intros Hall; now apply (Hall kv)).
    destruct (lookup "video_url" kv) as [v|] eqn:Hl.
    + destruct (truthy v) eqn:Ht.
      * assert (Hout :
          forall msg,
            match v with
            | JStr video_url =>
                Returned (summarize_url (Some ydl) (Some client) video_url)
            | _ => SearchTypeError v
            end = Returned (failure msg 400) ->
            msg = "Invalid YouTube Link.").
        { intros msg. destruct v as [| | |u| |]; try discriminate.
          destruct (summarize_url_status (Some ydl) (Some client) u)
            as [[_ ->] | [(summary & ->) | (m & ->)]]; try discriminate.
          now intros [= <-]. }
        split; split.
        -- intros Heq. apply Hout in Heq. discriminate.
        -- intros Hall. contradiction.
        -- intros Heq. apply Hout in Heq. discriminate.
        -- intros (kv' & [= <-] & [Hn | (v' & Hv & Hf)]); congruence.
      * split; split; try discriminate.
        -- intros Hall. contradiction.
        -- intros _. exists kv. split; [reflexivity|]. right. now exists v.
        -- reflexivity.
    + split; split; try discriminate.
      * intros Hall. contradiction.
      * intros _. exists kv. split; [reflexivity | now left].
      * reflexivity.
  - rewrite read_video_url_other by (rewrite Hj; intros kv [= ->]; now apply (Hno kv)).
    split; split; try discriminate; try reflexivity.
    + intros _ kv [= ->]. now apply (Hno kv).
    + intros (kv & [= ->] & _). exfalso. now apply (Hno kv).
Qed.

(** The theorem above on the body [{"video_url": ""}]. *)
Lemma summarize_body_validation_witness :
  @summarize plain_runtime
    (Some (fixed_ytdlp english_manual_info example_captions)) (Some echo_client)
    (summarize_request (JStr "")) =
  Returned (failure "No URL provided." 400).
Proof.
  apply (proj2 (proj2 (@summarize_body_validation plain_runtime
                         (fixed_ytdlp english_manual_info example_captions)
                         echo_client (summarize_request (JStr ""))))).
  exists [("video_url", JStr "")]. split; [reflexivity|].
  right. exists (JStr ""). now split.
Defined.

Section SummarizeCases.
Context `{Runtime}.
Variable ydl : ytdlp.
Variable client : mistral.

(** The four ways through the validation of lines 157-167. *)
Lemma summarize_cases (req : request) :
  ((forall kv, get_json req <> Ok (JObj kv)) /\
   summarize (Some ydl) (Some client) req = Returned (failure "Invalid JSON." 400)) \/
  exists kv,
    get_json req = Ok (JObj kv) /\
    (((lookup "video_url" kv = None \/
       exists v, lookup "video_url" kv = Some v /\ truthy v = false) /\
      summarize (Some ydl) (Some client) req =
        Returned (failure "No URL provided." 400)) \/
     (exists v,
         lookup "video_url" kv = Some v /\ truthy v = true /\
         (forall u, v <> JStr u) /\
         summarize (Some ydl) (Some client) req = SearchTypeError v) \/
     (exists u,
         lookup "video_url" kv = Some (JStr u) /\ u <> "" /\
         summarize (Some ydl) (Some client) req =
           Returned (summarize_url (Some ydl) (Some client) u))).
Proof.
  rewrite summarize_available.
  destruct (get_json req) as [data|e] eqn:Hj.
  2: { left. split; [discriminate|].
       now rewrite read_video_url_other by (rewrite Hj; discriminate). }
  assert (Hobj : (exists kv, data = JObj kv) \/ forall kv, data <> JObj kv).
  { destruct data; try (right; discriminate). left. now eexists. }
  destruct Hobj as [(kv & ->) | Hno].
  - right. exists kv. split; [reflexivity|].
    rewrite (read_video_url_object _ _ Hj).
    destruct (lookup "video_url" kv) as [v|] eqn:Hl.
    + destruct (truthy v) eqn:Ht.
      * right. destruct v as [|b|z|u|l|o];
          try (left; eexists; repeat split; [eassumption | discriminate]).
        right. exists u. repeat split. now apply nonempty_true.
      * left. split; [right; now exists v | reflexivity].
    + left. split; [now left | reflexivity].
  - left. split; [intros kv [= ->]; now apply (Hno kv)|].
    now rewrite read_video_url_other
      by (rewrite Hj; intros kv [= ->]; now apply (Hno kv)).
Qed.

End SummarizeCases.

(** X10.  With both services available, [/summarize] answers 400 "Invalid
    YouTube Link." exactly when [video_url] is a non-empty string in which
    no marker ([v=] or [youtu.be/]) is followed by a word character or a
    hyphen. *)
Theorem summarize_invalid_link `{Runtime}
    (ydl : ytdlp) (client : mistral) (req : request) :
  summarize (Some ydl) (Some client) req =
    Returned (failure "Invalid YouTube Link." 400) <->
  exists kv u,
    get_json req = Ok (JObj kv) /\
    lookup "video_url" kv = Some (JStr u) /\
    u <> "" /\
    forall p id, ~ occurs_at u p id.
Proof.
  destruct (summarize_cases ydl client req)
    as [[Hno ->] | (kv & Hj & [[Hl ->] | [(v & Hl & Ht & Hs & ->) | (u & Hl & Hu & ->)]])].
  - split; [discriminate|]. intros (kv & u & Hj & _). now destruct (Hno kv).
  - split; [discriminate|].
    intros (kv' & u & Hj' & Hl' & Hu & _).
    rewrite Hj in Hj'. injection Hj' as <-.
    destruct Hl as [Hl | (v & Hl & Hf)]; rewrite Hl in Hl'; [discriminate|].
    injection Hl' as ->. cbn in Hf. apply nonempty_false in Hf. contradiction.
  - split; [discriminate|].
    intros (kv' & u & Hj' & Hl' & _).
    rewrite Hj in Hj'. injection Hj' as <-. rewrite Hl in Hl'.
    injection Hl' as ->. now destruct (Hs u).
  - assert (Hnone : get_video_id u = None <-> forall p id, ~ occurs_at u p id).
    { unfold get_video_id. apply nonempty_true in Hu. rewrite Hu.
      apply re_search_none. }
    split.
    + intros Heq. exists kv, u. repeat split; auto. apply Hnone.
      destruct (summarize_url_status (Some ydl) (Some client) u)
        as [[Hn _] | [(summary & Hs) | (m & Hs)]]; [exact Hn | |];
        rewrite Hs in Heq; discriminate.
    + intros (kv' & u' & Hj' & Hl' & _ & Hocc).
      rewrite Hj in Hj'. injection Hj' as <-. rewrite Hl in Hl'.
      injection Hl' as <-. apply Hnone in Hocc.
      unfold summarize_url. now rewrite Hocc.
Qed.

(** The theorem above on a link to another site. *)
Lemma summarize_invalid_link_witness :
  @summarize plain_runtime
    (Some (fixed_ytdlp english_manual_info example_captions)) (Some echo_client)
    (summarize_request (JStr "https://example.org/")) =
  Returned (failure "Invalid YouTube Link." 400).
Proof.
  apply (proj2 (@summarize_invalid_link plain_runtime
                  (fixed_ytdlp english_manual_info example_captions)
                  echo_client (summarize_request (JStr "https://example.org/")))).
  exists [("video_url", JStr "https://example.org/")], "https://example.org/".
  repeat split; [discriminate|].
  apply re_search_none. vm_compute. reflexivity.
Defined.

(** X11.  With both services available, [/summarize] lets an exception
    escape, the type error of the pattern search, exactly when [video_url] is
    truthy and not a string (true, a non-zero number, a non-empty list or
    object); no JSON error response is produced for such a request. *)
Theorem summarize_unhandled_type_error `{Runtime}
    (ydl : ytdlp) (client : mistral) (req : request) (v : json) :
  summarize (Some ydl) (Some client) req = SearchTypeError v <->
  exists kv,
    get_json req = Ok (JObj kv) /\
    lookup "video_url" kv = Some v /\
    truthy v = true /\
    forall u, v <> JStr u.
Proof.
  destruct (summarize_cases ydl client req)
    as [[Hno ->] | (kv & Hj & [[Hl ->] | [(v' & Hl & Ht & Hs & ->) | (u & Hl & Hu & ->)]])].
  - split; [discriminate|]. intros (kv & Hj & _). now destruct (Hno kv).
  - split; [discriminate|].
    intros (kv' & Hj' & Hl' & Ht & _).
    rewrite Hj in Hj'. injection Hj' as <-.
    destruct Hl as [Hl | (v' & Hl & Hf)]; rewrite Hl in Hl'; [discriminate|].
    injection Hl' as ->. congruence.
  - split.
    + intros [= ->]. now exists kv.
    + intros (kv' & Hj' & Hl' & _).
      rewrite Hj in Hj'. injection Hj' as <-. rewrite Hl in Hl'. now injection Hl' as ->.
  - split; [discriminate|].
    intros (kv' & Hj' & Hl' & _ & Hs).
    rewrite Hj in Hj'. injection Hj' as <-. rewrite Hl in Hl'.
    injection Hl' as <-. now destruct (Hs u).
Qed.

(** The theorem above on the body [{"video_url": 42}]. *)
Lemma summarize_unhandled_type_error_witness :
  @summarize plain_runtime
    (Some (fixed_ytdlp english_manual_info example_captions)) (Some echo_client)
    (summarize_request (JInt 42)) =
  SearchTypeError (JInt 42).
Proof.
  apply (proj2 (@summarize_unhandled_type_error plain_runtime
                  (fixed_ytdlp english_manual_info example_captions)
                  echo_client (summarize_request (JInt 42)) (JInt 42))).
  exists [("video_url", JInt 42)]. repeat split. discriminate.
Defined.

(** X12.  A failed fetch reaches the client of [/summarize] as a 500 whose
    error text carries both prefixes, "Failed to get transcript: " and
    "Failed to fetch transcript with yt-dlp: ", before the text of the stage
    that failed. *)
Theorem summarize_transcript_failure `{Runtime}
    (ydl : ytdlp) (client : mistral) (req : request)
    (kv : list (string * json)) (video_url video_id : string) (e : exn) :
  get_json req = Ok (JObj kv) ->
  lookup "video_url" kv = Some (JStr video_url) ->
  get_video_id video_url = Some video_id ->
  fetch_transcript ydl video_id = Error e ->
  summarize (Some ydl) (Some client) req =
    Returned
      (failure ("Failed to get transcript: " ++
                "Failed to fetch transcript with yt-dlp: " ++ str e) 500) /\
  fetch_failure_text ydl video_id (str e).
Proof.
  intros Hj Hl Hid F. split; [|now apply fetch_transcript_error].
  rewrite summarize_available, (read_video_url_object _ _ Hj), Hl.
  assert (Hu : truthy (JStr video_url) = true).
  { cbn. destruct video_url; [discriminate | reflexivity]. }
  rewrite Hu, (summarize_url_some _ _ _ _ Hid).
  unfold get_transcript_with_ytdlp. now rewrite F.
Qed.

(** The theorem above on a video without captions in English. *)
Lemma summarize_transcript_failure_witness :
  @summarize plain_runtime
    (Some (fixed_ytdlp french_automatic_info example_captions)) (Some echo_client)
    (summarize_request (JStr "https://youtu.be/abc123")) =
  Returned
    (failure ("Failed to get transcript: " ++
              "Failed to fetch transcript with yt-dlp: " ++
              "Could not find subtitle URL") 500).
Proof.
  exact (proj1 (@summarize_transcript_failure plain_runtime
                  (fixed_ytdlp french_automatic_info example_captions) echo_client
                  (summarize_request (JStr "https://youtu.be/abc123"))
                  [("video_url", JStr "https://youtu.be/abc123")]
                  "https://youtu.be/abc123" "abc123"
                  (Exception "Could not find subtitle URL")
                  eq_refl eq_refl eq_refl eq_refl)).
Defined.

(** X13.  [/summarize] answers 200 with a summary in exactly one way: both
    services are available, the body is an object whose [video_url] is a
    string with an identifier, the fetch for that identifier returns a
    transcript, and the model call on the summary prompt of that transcript
    returns at least one choice; the summary is the first choice. *)
Theorem summarize_success `{Runtime}
    (yt_dlp : option ytdlp) (mistral_client : option mistral)
    (req : request) (summary : string) :
  summarize yt_dlp mistral_client req = Returned (summary_response summary) <->
  exists ydl client kv video_url video_id text rest,
    yt_dlp = Some ydl /\ mistral_client = Some client /\
    get_json req = Ok (JObj kv) /\
    lookup "video_url" kv = Some (JStr video_url) /\
    get_video_id video_url = Some video_id /\
    get_transcript_with_ytdlp (Some ydl) video_id = Ok text /\
    chat_complete client MODEL_NAME (summary_prompt text) = Ok (summary :: rest).
Proof.
  split.
  - destruct yt_dlp as [ydl|]; [|discriminate].
    destruct mistral_client as [client|]; [|discriminate].
    destruct (summarize_cases ydl client req)
      as [[Hno ->] | (kv & Hj & [[Hl ->] | [(v & Hl & Ht & Hs & ->) | (u & Hl & Hu & ->)]])];
      try discriminate.
    intros [= Heq].
    destruct (get_video_id u) as [video_id|] eqn:Hid.
    2: { unfold summarize_url in Heq. rewrite Hid in Heq. discriminate. }
    rewrite (summarize_url_some _ _ _ _ Hid) in Heq.
    destruct (get_transcript_with_ytdlp (Some ydl) video_id) as [text|e] eqn:Ht;
      [|discriminate].
    destruct (summarize_transcript (Some client) text) as [s [|]] eqn:Hs;
      [|discriminate].
    injection Heq as ->.
    apply summarize_transcript_true in Hs as (client' & rest & [= <-] & Hc).
    now exists ydl, client, kv, u, video_id, text, rest.
  - intros (ydl & client & kv & u & video_id & text & rest
            & -> & -> & Hj & Hl & Hid & Ht & Hc).
    rewrite summarize_available, (read_video_url_object _ _ Hj), Hl.
    assert (Hu : truthy (JStr u) = true).
    { cbn. destruct u; [discriminate | reflexivity]. }
    rewrite Hu, (summarize_url_some _ _ _ _ Hid), Ht.
    assert (Hs : summarize_transcript (Some client) text = (summary, true))
      by (apply summarize_transcript_true; now exists client, rest).
    now rewrite Hs.
Qed.

(** The theorem above on a short link, the example payload and a client that
    echoes the prompt. *)
Lemma summarize_success_witness :
  @summarize plain_runtime
    (Some (fixed_ytdlp english_manual_info example_captions)) (Some echo_client)
    (summarize_request (JStr "https://youtu.be/abc123")) =
  Returned (summary_response (summary_prompt "a b")).
Proof.
  apply (proj2 (@summarize_success plain_runtime
                  (Some (fixed_ytdlp english_manual_info example_captions))
                  (Some echo_client)
                  (summarize_request (JStr "https://youtu.be/abc123"))
                  (summary_prompt "a b"))).
  exists (fixed_ytdlp english_manual_info example_captions), echo_client,
    [("video_url", JStr "https://youtu.be/abc123")],
    "https://youtu.be/abc123", "abc123", "a b", [].
  repeat split.
Defined.

(** * Further properties of the [/ask] handler *)

Section AskCases.
Context `{Runtime}.
Variable mistral_client : option mistral.

Lemma first_missing_object (keys : list string) (kv : list (string * json)) :
  match first_missing keys (JObj kv) with
  | Ok (Some k) =>
      exists pre post,
        keys = (pre ++ k :: post)%list /\
        (forall k', In k' pre -> lookup k' kv <> None) /\
        lookup k kv = None
  | Ok None => forall k, In k keys -> lookup k kv <> None
  | Error _ => False
  end.
Proof.
  induction keys as [|k keys IH]; cbn [first_missing not_in bind].
  - intros k [].
  - unfold has_key. destruct (lookup k kv) as [v|] eqn:Hk; cbn [negb].
    + destruct (first_missing keys (JObj kv)) as [[k0|]|e]; [| |exact IH].
      * destruct IH as (pre & post & -> & Hpre & Hk0).
        exists (k :: pre), post. split; [reflexivity|]. split; [|exact Hk0].
        intros k' [<- | Hin]; [congruence | now apply Hpre].
      * intros k' [<- | Hin]; [congruence | now apply IH].
    + exists [], keys. split; [reflexivity|]. split; [intros k' []|exact Hk].
Qed.

Lemma first_missing_member (keys : list string) (data : json) (k : string) :
  first_missing keys data = Ok (Some k) -> In k keys.
Proof.
  induction keys as [|k0 keys IH]; cbn [first_missing]; [discriminate|].
  destruct (not_in k0 data) as [[|]|e]; cbn [bind]; try discriminate.
  - intros [= <-]. now left.
  - intros Hm. right. now apply IH.
Qed.

(** The ways [ask_data] returns a response. *)
Lemma ask_data_ok (data : json) (r : response) :
  ask_data mistral_client data = Ok r ->
  (exists k, first_missing required_keys data = Ok (Some k) /\
             r = missing_key_response k) \/
  exists kv q pc s n,
    data = JObj kv /\ carries kv q pc s /\ py_int pc = Ok n /\
    (((8 <= n)%Z /\ r = limit_response) \/
     ((n < 8)%Z /\ mistral_client = None /\
      r = failure "Mistral API Key or client initialization failed." 500) \/
     ((n < 8)%Z /\
      exists client prompt answer rest,
        mistral_client = Some client /\
        build_answer_prompt s q = Ok prompt /\
        chat_complete client MODEL_NAME prompt = Ok (answer :: rest) /\
        r = success_response answer (n + 1))).
Proof.
  unfold ask_data.
  destruct (first_missing required_keys data) as [[k|]|e] eqn:Hm; cbn [bind];
    [| |discriminate].
  - intros [= <-]. left. now exists k.
  - destruct data as [| | | | |kv]; try discriminate.
    unfold subscript, getitem, get_default.
    destruct (lookup "question" kv) as [q|] eqn:Hq; [|discriminate].
    destruct (lookup "prompt_count" kv) as [pc|] eqn:Hpc; [|discriminate].
    destruct (lookup "summary" kv) as [s|] eqn:Hs; [|discriminate].
    cbn [bind].
    destruct (py_int pc) as [n|e] eqn:Hn; [|discriminate]. cbn [bind].
    intros Hr. right. exists kv, q, pc, s, n.
    split; [reflexivity|]. split; [now repeat split|]. split; [exact Hn|].
    destruct (Z.geb_spec n 8) as [Hge | Hlt].
    + injection Hr as <-. left. split; [lia | reflexivity].
    + right. destruct mistral_client as [client|].
      * right. split; [exact Hlt|].
        destruct (build_answer_prompt s q) as [prompt|e]; [|discriminate].
        cbn [bind] in Hr.
        destruct (chat_complete client MODEL_NAME prompt) as [[|answer rest]|e] eqn:Hc;
          try discriminate.
        cbn [bind first_choice] in Hr. injection Hr as <-.
        now exists client, prompt, answer, rest.
      * injection Hr as <-. left. now repeat split.
Qed.

(** The ways [ask] answers. *)
Lemma ask_cases (req : request) :
  (exists e, ask_try mistral_client req = Error e /\
             ask mistral_client req = internal_error_response e) \/
  (is_json req = false /\
   ask mistral_client req =
     {| body := [("verification", JBool false); ("error", JStr "JSON not available.")];
        status := 400 |}) \/
  (is_json req = true /\ get_json req = Ok JNull /\
   ask mistral_client req =
     {| body := [("verification", JBool false); ("error", JStr "Request failed.")];
        status := 400 |}) \/
  (exists data,
      is_json req = true /\ get_json req = Ok data /\
      ask_data mistral_client data = Ok (ask mistral_client req)).
Proof.
  unfold ask. destruct (ask_try mistral_client req) as [r|e] eqn:Ht.
  2: { left. now exists e. }
  right. unfold ask_try in Ht. destruct (is_json req); cbn [negb] in Ht.
  2: { left. now injection Ht as <-. }
  right. destruct (get_json req) as [data|e]; [|discriminate]. cbn [bind] in Ht.
  destruct data; try (right; eexists; repeat split; exact Ht).
  left. now injection Ht as <-.
Qed.

End AskCases.

Section AskOutcome.
Context `{Runtime}.
Variable mistral_client : option mistral.

Lemma append_inv_tail (a b c : string) : a ++ c = b ++ c -> a = b.
Proof.
  intros E. apply (append_split a c b c E).
  apply (f_equal String.length) in E. rewrite !length_append in E. lia.
Qed.

(** Every answer of [ask] is the success response of an admitted turn, or a
    400 or 500 with an error text and neither counter nor answer. *)
Lemma ask_outcome (req : request) :
  (exists client answer n,
      mistral_client = Some client /\ (n < 8)%Z /\
      ask mistral_client req = success_response answer (n + 1)) \/
  ((status (ask mistral_client req) = 400 \/ status (ask mistral_client req) = 500) /\
   (exists msg, lookup "error" (body (ask mistral_client req)) = Some (JStr msg)) /\
   lookup "prompt_count" (body (ask mistral_client req)) = None /\
   lookup "answer" (body (ask mistral_client req)) = None).
Proof.
  assert (Herr : forall r : response,
             ask mistral_client req = r ->
             (status r = 400 \/ status r = 500) ->
             (exists msg, lookup "error" (body r) = Some (JStr msg)) ->
             lookup "prompt_count" (body r) = None ->
             lookup "answer" (body r) = None ->
             (status (ask mistral_client req) = 400 \/
              status (ask mistral_client req) = 500) /\
             (exists msg, lookup "error" (body (ask mistral_client req)) = Some (JStr msg)) /\
             lookup "prompt_count" (body (ask mistral_client req)) = None /\
             lookup "answer" (body (ask mistral_client req)) = None).
  { intros r -> Hs He Hp Ha. auto. }
  destruct (ask_cases mistral_client req)
    as [(e & _ & Hr) | [[_ Hr] | [(_ & _ & Hr) | (data & _ & _ & Hd)]]].
  - right. apply (Herr _ Hr);
      [now right | eexists; reflexivity | reflexivity | reflexivity].
  - right. apply (Herr _ Hr);
      [now left | eexists; reflexivity | reflexivity | reflexivity].
  - right. apply (Herr _ Hr);
      [now left | eexists; reflexivity | reflexivity | reflexivity].
  - apply ask_data_ok in Hd
      as [(k & _ & Hr) | (kv & q & pc & s & n & _ & _ & _
                          & [[_ Hr] | [(_ & _ & Hr) | (Hlt & client & prompt & answer & rest
                                                       & Hc & _ & _ & Hr)]])].
    + right. apply (Herr _ Hr);
        [now left | eexists; reflexivity | reflexivity | reflexivity].
    + right. apply (Herr _ Hr);
        [now left | eexists; reflexivity | reflexivity | reflexivity].
    + right. apply (Herr _ Hr);
        [now right | eexists; reflexivity | reflexivity | reflexivity].
    + left. now exists client, answer, n.
Qed.

Lemma first_gap_unique (P : string -> Prop)
    (pre pre0 : list string) (k k0 : string) (post post0 : list string) :
  (pre ++ k :: post)%list = (pre0 ++ k0 :: post0)%list ->
  (forall x, In x pre -> P x) -> ~ P k ->
  (forall x, In x pre0 -> P x) -> ~ P k0 ->
  k = k0.
Proof.
  revert pre0. induction pre as [|a pre IH]; intros [|b pre0] E Hpre Hk Hpre0 Hk0;
    cbn in E; injection E as E1 E2.
  - exact E1.
  - subst b. destruct Hk. apply Hpre0. now left.
  - subst a. destruct Hk0. apply Hpre. now left.
  - apply (IH pre0 E2); auto.
    + intros x Hx. apply Hpre. now right.
    + intros x Hx. apply Hpre0. now right.
Qed.

End AskOutcome.

(** X14.  Every response of [/summarize] has one of two shapes: status 200
    with [{"success": true, "summary": ...}], or status 400 or 500 with
    [{"success": false, "error": ...}]; the success flag and the status
    never disagree. *)
Theorem summarize_response_shape `{Runtime}
    (yt_dlp : option ytdlp) (mistral_client : option mistral)
    (req : request) (r : response) :
  summarize yt_dlp mistral_client req = Returned r ->
  (status r = 200 /\ exists summary, r = summary_response summary) \/
  ((status r = 400 \/ status r = 500) /\ exists msg, r = failure msg (status r)).
Proof.
  destruct yt_dlp as [ydl|].
  2: { intros [= <-]. right. split; [now right | now eexists]. }
  destruct mistral_client as [client|].
  2: { intros [= <-]. right. split; [now right | now eexists]. }
  destruct (summarize_cases ydl client req)
    as [[Hno ->] | (kv & Hj & [[Hl ->] | [(v & Hl & Ht & Hs & ->) | (u & Hl & Hu & ->)]])];
    try discriminate;
    try (intros [= <-]; right; split; [now left | now eexists]).
  intros [= <-].
  destruct (summarize_url_status (Some ydl) (Some client) u)
    as [[_ ->] | [(summary & ->) | (m & ->)]].
  - right. split; [now left | now eexists].
  - left. split; [reflexivity | now eexists].
  - right. split; [now right | now eexists].
Qed.

(** The theorem above on a request without a body that parses. *)
Lemma summarize_response_shape_witness :
  (status (failure "Invalid JSON." 400) = 200 /\
   exists summary, failure "Invalid JSON." 400 = summary_response summary) \/
  ((status (failure "Invalid JSON." 400) = 400 \/
    status (failure "Invalid JSON." 400) = 500) /\
   exists msg,
     failure "Invalid JSON." 400 = failure msg (status (failure "Invalid JSON." 400))).
Proof.
  exact (@summarize_response_shape plain_runtime
           (Some (fixed_ytdlp english_manual_info example_captions)) (Some echo_client)
           {| is_json := false; get_json := Error (Collaborator "400 Bad Request") |}
           (failure "Invalid JSON." 400) eq_refl).
Defined.

(** X15.  A failure of the model call (an exception of the client, or a
    response without choices) is reported differently by the two endpoints:
    [/summarize] answers 500 with [{"success": false, "error": "Mistral API
    Error: ..."}], [/ask] answers 500 with [{"verification": false, "error":
    "Internal server error ..."}]. *)
Theorem model_failure_envelopes `{Runtime} (client : mistral) (e : exn) :
  (forall ydl req kv video_url video_id text,
      get_json req = Ok (JObj kv) ->
      lookup "video_url" kv = Some (JStr video_url) ->
      get_video_id video_url = Some video_id ->
      get_transcript_with_ytdlp (Some ydl) video_id = Ok text ->
      (choices <- chat_complete client MODEL_NAME (summary_prompt text) ;;
       first_choice choices) = Error e ->
      summarize (Some ydl) (Some client) req =
        Returned (failure ("Mistral API Error: " ++ str e) 500)) /\
  (forall kv question prompt_count summary n prompt,
      carries kv question prompt_count summary ->
      py_int prompt_count = Ok n -> (n < 8)%Z ->
      build_answer_prompt summary question = Ok prompt ->
      (choices <- chat_complete client MODEL_NAME prompt ;;
       first_choice choices) = Error e ->
      ask (Some client) (json_request kv) = internal_error_response e).
Proof.
  split.
  - intros ydl req kv u video_id text Hj Hl Hid Ht Hc.
    rewrite summarize_available, (read_video_url_object _ _ Hj), Hl.
    assert (Hu : truthy (JStr u) = true).
    { cbn. destruct u; [discriminate | reflexivity]. }
    rewrite Hu, (summarize_url_some _ _ _ _ Hid), Ht.
    assert (Hs : summarize_transcript (Some client) text =
                 ("Mistral API Error: " ++ str e, false))
      by (apply summarize_transcript_false; right; now exists client, e).
    now rewrite Hs.
  - intros kv q pc s n prompt Hcar Hn Hlt Hp Hc.
    rewrite (ask_carries _ _ _ _ _ Hcar), (turn_admitted _ _ _ _ _ Hn Hlt), Hp.
    cbn [bind].
    destruct (chat_complete client MODEL_NAME prompt) as [[|a rest]|e'];
      cbn [bind first_choice] in *; try discriminate; now injection Hc as <-.
Qed.

(** The theorem above on a client whose every call raises. *)
Lemma model_failure_envelopes_witness :
  @summarize plain_runtime
    (Some (fixed_ytdlp english_manual_info example_captions)) (Some failing_client)
    (summarize_request (JStr "https://youtu.be/abc123")) =
    Returned (failure "Mistral API Error: 503 Service Unavailable" 500) /\
  @ask plain_runtime (Some failing_client) (turn_request (JInt 0)) =
    @internal_error_response plain_runtime (Collaborator "503 Service Unavailable").
Proof.
  destruct (@model_failure_envelopes plain_runtime failing_client
              (Collaborator "503 Service Unavailable")) as [Hs Ha].
  split.
  - exact (Hs (fixed_ytdlp english_manual_info example_captions)
              (summarize_request (JStr "https://youtu.be/abc123"))
              [("video_url", JStr "https://youtu.be/abc123")]
              "https://youtu.be/abc123" "abc123" "a b"
              eq_refl eq_refl eq_refl eq_refl eq_refl).
  - refine (Ha _ (JStr "Why?") (JInt 0) (JStr "A talk.") 0%Z
               (answer_prompt "A talk." "Why?") _ eq_refl _ eq_refl eq_refl).
    + repeat split.
    + lia.
Defined.

(** X16.  Started without a usable key (not set, empty, or refused by the
    client's constructor) the program has no client, and then neither
    endpoint ever answers 200: [/summarize] answers every request with a
    500, and no [/ask] response has status 200.  A non-empty key the
    constructor accepts gives the client. *)
Theorem service_without_client `{Runtime}
    (MISTRAL_API_KEY : option string) (Mistral : string -> result mistral) :
  ((MISTRAL_API_KEY = None \/ MISTRAL_API_KEY = Some "" \/
    exists key e, MISTRAL_API_KEY = Some key /\ Mistral key = Error e) ->
   init_mistral_client MISTRAL_API_KEY Mistral = None /\
   (forall yt_dlp req,
       exists msg,
         summarize yt_dlp (init_mistral_client MISTRAL_API_KEY Mistral) req =
         Returned (failure msg 500)) /\
   (forall req,
       status (ask (init_mistral_client MISTRAL_API_KEY Mistral) req) <> 200)) /\
  (forall key client,
      MISTRAL_API_KEY = Some key -> key <> "" -> Mistral key = Ok client ->
      init_mistral_client MISTRAL_API_KEY Mistral = Some client).
Proof.
  split.
  - intros Hkey.
    assert (Hnone : init_mistral_client MISTRAL_API_KEY Mistral = None).
    { unfold init_mistral_client.
      destruct Hkey as [-> | [-> | (key & e & -> & He)]]; try reflexivity.
      rewrite He. now destruct (nonempty key). }
    rewrite Hnone. split; [reflexivity|]. split.
    + intros [ydl|] req; eexists; reflexivity.
    + intros req.
      destruct (ask_outcome None req)
        as [(client & _ & _ & Hc & _) | ([Hs | Hs] & _)];
        [discriminate | rewrite Hs; discriminate | rewrite Hs; discriminate].
  - intros key client -> Hne Hc. unfold init_mistral_client.
    apply nonempty_true in Hne. now rewrite Hne, Hc.
Qed.

(** The theorem above on an environment without the key. *)
Lemma service_without_client_witness :
  init_mistral_client None (fun _ => Ok echo_client) = None.
Proof.
  refine (proj1 (proj1 (@service_without_client plain_runtime None
                          (fun _ => Ok echo_client)) _)).
  now left.
Defined.

(** X17.  [/ask] answers with the success response in exactly one way: the
    request is JSON and its body an object with the three fields, the counter
    converts to an integer below 8, the client is configured, the prompt can
    be built from the summary and the question, and the model call on that
    prompt returns at least one choice.  The answer is the first choice and
    the counter sent back is the converted counter plus one. *)
Theorem ask_success `{Runtime}
    (mistral_client : option mistral) (req : request) (answer : string) (next : Z) :
  ask mistral_client req = success_response answer next <->
  exists kv question prompt_count summary client prompt rest,
    is_json req = true /\ get_json req = Ok (JObj kv) /\
    carries kv question prompt_count summary /\
    py_int prompt_count = Ok (next - 1)%Z /\ (next <= 8)%Z /\
    mistral_client = Some client /\
    build_answer_prompt summary question = Ok prompt /\
    chat_complete client MODEL_NAME prompt = Ok (answer :: rest).
Proof.
  split.
  - intros Heq.
    destruct (ask_cases mistral_client req)
      as [(e & _ & Hr) | [[_ Hr] | [(_ & _ & Hr) | (data & Hi & Hj & Hd)]]];
      try (rewrite Heq in Hr; discriminate).
    apply ask_data_ok in Hd
      as [(k & _ & Hr) | (kv & q & pc & s & n & -> & Hcar & Hn
                          & [[_ Hr] | [(_ & _ & Hr) | (Hlt & client & prompt & a & rest
                                                       & Hc & Hp & Hm & Hr)]])];
      try (rewrite Heq in Hr; discriminate).
    rewrite Heq in Hr. injection Hr as -> ->.
    exists kv, q, pc, s, client, prompt, rest.
    replace (n + 1 - 1)%Z with n by lia. repeat split; auto; try apply Hcar. lia.
  - intros (kv & q & pc & s & client & prompt & rest
            & Hi & Hj & Hcar & Hn & Hle & -> & Hp & Hm).
    assert (Hreq : req = json_request kv).
    { destruct req as [i j]. cbn in Hi, Hj. now subst. }
    rewrite Hreq, (ask_carries _ _ _ _ _ Hcar).
    rewrite (turn_success (Some client) client q pc s (next - 1) prompt answer rest
               eq_refl Hn ltac:(lia) Hp Hm).
    now replace (next - 1 + 1)%Z with next by lia.
Qed.

(** The theorem above on the first turn of a conversation. *)
Lemma ask_success_witness :
  @ask plain_runtime (Some echo_client) (turn_request (JInt 0)) =
  success_response (answer_prompt "A talk." "Why?") 1.
Proof.
  apply (proj2 (@ask_success plain_runtime (Some echo_client)
                  (turn_request (JInt 0)) (answer_prompt "A talk." "Why?") 1)).
  exists [("question", JStr "Why?"); ("prompt_count", JInt 0); ("summary", JStr "A talk.")],
    (JStr "Why?"), (JInt 0), (JStr "A talk."), echo_client,
    (answer_prompt "A talk." "Why?"), [].
  repeat split. lia.
Defined.

(** X18.  Every answer of [/ask] is either the success response, whose
    counter is at most 8, or a response of status 400 or 500 that carries an
    error text and neither a counter nor an answer.  So the counter the
    server hands back never exceeds 8, whatever the client sent. *)
Theorem ask_response_invariant `{Runtime}
    (mistral_client : option mistral) (req : request) :
  (exists answer n,
      ask mistral_client req = success_response answer n /\ (n <= 8)%Z) \/
  ((status (ask mistral_client req) = 400 \/ status (ask mistral_client req) = 500) /\
   (exists msg, lookup "error" (body (ask mistral_client req)) = Some (JStr msg)) /\
   lookup "prompt_count" (body (ask mistral_client req)) = None /\
   lookup "answer" (body (ask mistral_client req)) = None).
Proof.
  destruct (ask_outcome mistral_client req)
    as [(client & answer & n & _ & Hlt & Hr) | Hfail]; [left | now right].
  exists answer, (n + 1)%Z. split; [exact Hr | lia].
Qed.

(** X19.  When required keys are missing from the JSON object, the key the
    400 response names is the first missing one in the order [question],
    [prompt_count], [summary]: the response names [k] exactly when [k] is
    missing and every required key before it is present. *)
Theorem ask_reports_first_missing_key `{Runtime}
    (mistral_client : option mistral) (kv : list (string * json)) (k : string) :
  ask mistral_client (json_request kv) = missing_key_response k <->
  exists before after,
    required_keys = (before ++ k :: after)%list /\
    (forall k', In k' before -> lookup k' kv <> None) /\
    lookup k kv = None.
Proof.
  pose proof (first_missing_object required_keys kv) as Hfm.
  split.
  - intros Heq.
    destruct (ask_cases mistral_client (json_request kv))
      as [(e & _ & Hr) | [[Hi _] | [(_ & Hj & _) | (data & _ & Hj & Hd)]]];
      try discriminate.
    + rewrite Heq in Hr. discriminate.
    + injection Hj as <-.
      apply ask_data_ok in Hd
        as [(k0 & Hm & Hr) | (kv' & q & pc & s & n & _ & _ & _
                              & [[_ Hr] | [(_ & _ & Hr) | (_ & client & prompt & a & rest
                                                           & _ & _ & _ & Hr)]])];
        try (rewrite Heq in Hr; discriminate).
      rewrite Heq in Hr. injection Hr as Hk. apply append_inv_tail in Hk. subst k0.
      now rewrite Hm in Hfm.
  - intros (before & after & E & Hpre & Hk).
    apply (first_missing_reported mistral_client kv k).
    destruct (first_missing required_keys (JObj kv)) as [[k0|]|e]; [| |contradiction].
    + destruct Hfm as (pre0 & post0 & E0 & Hpre0 & Hk0).
      rewrite E in E0.
      rewrite (first_gap_unique (fun x => lookup x kv <> None)
                 before pre0 k k0 after post0 E0 Hpre); auto.
    + exfalso. apply (Hfm k); [rewrite E; apply in_elt | exact Hk].
Qed.

(** The theorem above on a body with the summary only. *)
Lemma ask_reports_first_missing_key_witness :
  @ask plain_runtime (Some echo_client) (json_request [("summary", JStr "A talk.")]) =
  missing_key_response "question".
Proof.
  apply (proj2 (@ask_reports_first_missing_key plain_runtime (Some echo_client)
                  [("summary", JStr "A talk.")] "question")).
  exists [], ["prompt_count"; "summary"]. split; [reflexivity|].
  split; [intros k' [] | reflexivity].
Defined.

(** X20.  On an admitted turn the types of [summary] and [question] matter
    only once a client is configured.  Without a client the answer is the 500
    configuration error whatever the two fields are.  With a client, a
    [summary] that is neither a string nor a list (a number, a boolean, null,
    an object) gives the 500 internal-error envelope for the failed slice of
    the summary, before the question is looked at; a sliceable summary with
    such a [question] gives it for the question; strings and lists are both
    accepted. *)
Theorem ask_field_types `{Runtime}
    (client : mistral) (kv : list (string * json))
    (question prompt_count summary : json) (n : Z) :
  carries kv question prompt_count summary ->
  py_int prompt_count = Ok n -> (n < 8)%Z ->
  ask None (json_request kv) =
    failure "Mistral API Key or client initialization failed." 500 /\
  (sliceable summary = false ->
   ask (Some client) (json_request kv) =
     internal_error_response (Builtin (BadSubscript summary))) /\
  (sliceable summary = true -> sliceable question = false ->
   ask (Some client) (json_request kv) =
     internal_error_response (Builtin (BadSubscript question))) /\
  (sliceable summary = true -> sliceable question = true ->
   exists prompt, build_answer_prompt summary question = Ok prompt).
Proof.
  intros Hcar Hn Hlt. rewrite !(ask_carries _ _ _ _ _ Hcar).
  rewrite !(turn_admitted _ _ _ _ _ Hn Hlt).
  split; [reflexivity|]. unfold build_answer_prompt, slice_value.
  split; [|split].
  - destruct summary; cbn; try discriminate; reflexivity.
  - destruct summary; cbn [sliceable]; try discriminate;
      destruct question; cbn; try discriminate; reflexivity.
  - destruct summary; cbn [sliceable]; try discriminate;
      destruct question; cbn [sliceable]; try discriminate;
      intros _ _; cbn [bind]; eexists; reflexivity.
Qed.

(** The theorem above on a summary that is a number. *)
Lemma ask_field_types_witness :
  @ask plain_runtime (Some echo_client)
    (json_request [("question", JStr "Why?"); ("prompt_count", JInt 0);
                   ("summary", JInt 5)]) =
  @internal_error_response plain_runtime (Builtin (BadSubscript (JInt 5))).
Proof.
  refine (proj1 (proj2 (@ask_field_types plain_runtime echo_client _
                          (JStr "Why?") (JInt 0) (JInt 5) 0%Z _ eq_refl _))
            eq_refl).
  - repeat split.
  - lia.
Defined.
